(** * The [build_proto] command of the GraphScope Interactive Python SDK

    A shallow embedding of [flex/interactive/sdk/python/setup.py]: the
    [BuildProto] command, which regenerates the protobuf stubs of the SDK by
    running [grpc_tools.protoc] once per proto file.

    The command talks to the operating system only: it globs a directory,
    creates the output directory, probes paths for existence and spawns
    compiler subprocesses.  The embedding therefore has three layers:

    - the pure string functions of the Python library the command relies on
      ([posixpath.join], [posixpath.split], [fnmatch], [glob]);
    - the command itself, written as a program over OS requests ([prog]);
    - an interpreter [exec] that runs a program against a model of the OS
      and records every request together with its answer. *)

From Stdlib Require Import String Ascii List ZArith Bool Lia.
Import ListNotations.

Local Open Scope string_scope.
Local Open Scope list_scope.

Set Implicit Arguments.

(** ** Python [str] helpers *)

Module pystr.

(** [s.startswith(pre)] *)
Fixpoint startswith (s pre : string) {struct pre} : bool :=
  match pre with
  | EmptyString => true
  | String c pre' =>
      match s with
      | EmptyString => false
      | String d s' => Ascii.eqb c d && startswith s' pre'
      end
  end.

(** [s.endswith(suf)]: some tail of [s] is [suf]. *)
Fixpoint endswith (s suf : string) : bool :=
  String.eqb s suf
  || match s with
     | EmptyString => false
     | String _ s' => endswith s' suf
     end.

(** [c in s] for a one-character [c]. *)
Fixpoint contains (s : string) (c : ascii) : bool :=
  match s with
  | EmptyString => false
  | String d s' => Ascii.eqb c d || contains s' c
  end.

(** [s == c * len(s)]: every character of [s] is [c]. *)
Fixpoint all_chars (c : ascii) (s : string) : bool :=
  match s with
  | EmptyString => true
  | String d s' => Ascii.eqb c d && all_chars c s'
  end.

(** [s.rstrip(c)] for a one-character [c]. *)
Fixpoint rstrip (s : string) (c : ascii) : string :=
  match s with
  | EmptyString => EmptyString
  | String d s' =>
      if Ascii.eqb c d && all_chars c s' then EmptyString
      else String d (rstrip s' c)
  end.

End pystr.

(** ** [posixpath] *)

Module posixpath.

Definition sep : ascii := "/"%char.

(** [os.path.join(a, b)] with two arguments:
<<
    if b.startswith('/'):              path = b
    elif not path or path.endswith('/'): path += b
    else:                              path += '/' + b
>> *)
Definition join (a b : string) : string :=
  if pystr.startswith b "/" then b
  else if String.eqb a "" || pystr.endswith a "/" then (a ++ b)%string
  else (a ++ "/" ++ b)%string.

(** [(p[:i], p[i:])] for [i = p.rfind('/') + 1]. *)
Fixpoint split_at_last_sep (p : string) : string * string :=
  match p with
  | EmptyString => (EmptyString, EmptyString)
  | String c p' =>
      let '(h, t) := split_at_last_sep p' in
      if pystr.contains p' sep then (String c h, t)
      else if Ascii.eqb c sep then (String c EmptyString, p')
      else (EmptyString, String c p')
  end.

(** [os.path.split(p)]: the head loses its trailing slashes unless it
    consists of slashes only. *)
Definition split (p : string) : string * string :=
  let '(head, tail) := split_at_last_sep p in
  if negb (String.eqb head "") && negb (pystr.all_chars sep head)
  then (pystr.rstrip head sep, tail)
  else (head, tail).

End posixpath.

(** ** [fnmatch] *)

Module fnmatch.

(** Shell-style matching of a whole name against a pattern, with the
    wildcards [*] (any run of characters) and [?] (any one character).
    Bracket classes are not part of this model: the only pattern the
    command ever matches names against is ["*.proto"]. *)
Fixpoint match_pat (pat : string) : string -> bool :=
  match pat with
  | EmptyString => fun name => String.eqb name ""
  | String c pat' =>
      if Ascii.eqb c "*" then
        fix star (name : string) : bool :=
          match_pat pat' name
          || match name with
             | EmptyString => false
             | String _ name' => star name'
             end
      else
        fun name =>
          match name with
          | EmptyString => false
          | String d name' =>
              (Ascii.eqb c "?" || Ascii.eqb c d) && match_pat pat' name'
          end
  end.

Definition fnmatchcase (name pat : string) : bool := match_pat pat name.

(** [fnmatch.filter(names, pat)] on POSIX, where [normcase] is the
    identity. *)
Definition filter (names : list string) (pat : string) : list string :=
  List.filter (fun name => fnmatchcase name pat) names.

End fnmatch.

(** ** The operating system, as the command sees it *)

(** Exceptions that reach the caller of the command.  The source has no
    [try], so the first exception ends the run. *)
Inductive exn : Type :=
| OSError (errno : Z) (filename : string)
| CalledProcessError (returncode : Z) (cmd : list string).

(** A model of the OS over some type of machine states.  The fields are
    what the Python library functions used by the command bottom out in. *)
Record OS (World : Type) : Type := {
  (** names yielded by [os.scandir(d)], in the order the system yields
      them; empty when [d] cannot be listed *)
  scandir : World -> string -> list string;
  (** directories matched by a directory pattern that itself contains
      wildcards (the recursive call of [glob._iglob]) *)
  expand_dirs : World -> string -> list string;
  (** [os.path.lexists], [os.path.exists], [os.path.isdir] *)
  path_lexists : World -> string -> bool;
  path_exists : World -> string -> bool;
  path_isdir : World -> string -> bool;
  (** creating a directory together with its missing parents; the error
      is the [errno] of the [mkdir] that failed and the path it failed
      on.  A creation that fails is taken to fail as a whole and to
      leave the machine as it was: parents created on the way to a
      failing [mkdir] are not part of the model *)
  mkdir_chain : World -> string -> World + Z * string;
  (** running a command to completion: the machine afterwards and the
      exit status of the process; the interpreter named by the first
      argument is taken to start *)
  spawn : World -> list string -> World * Z
}.

(** ** [glob] *)

Module glob.

Section Glob.
Context {World : Type} (os : OS World).

(** [magic_check = re.compile('([*?[])')] *)
Definition has_magic (s : string) : bool :=
  pystr.contains s "*" || pystr.contains s "?" || pystr.contains s "[".

(** [_ishidden(path)]: [path[0] == '.'] *)
Definition ishidden (path : string) : bool := pystr.startswith path ".".

(** [_glob1]: the entries of [dirname] that match [pattern]; hidden
    entries are dropped unless the pattern itself is hidden.  An
    empty [dirname] stands for [os.curdir]. *)
Definition glob1 (w : World) (dirname pattern : string) : list string :=
  let names := scandir os w (if String.eqb dirname "" then "." else dirname) in
  let names :=
    if negb (ishidden pattern)
    then List.filter (fun x => negb (ishidden x)) names
    else names in
  fnmatch.filter names pattern.

(** [_glob0]: a literal last component. *)
Definition glob0 (w : World) (dirname basename : string) : list string :=
  if String.eqb basename "" then
    if path_isdir os w dirname then [basename] else []
  else
    if path_lexists os w (posixpath.join dirname basename)
    then [basename] else [].

(** [glob.glob(pathname)], non-recursive, without [root_dir]. *)
Definition glob (w : World) (pathname : string) : list string :=
  let '(dirname, basename) := posixpath.split pathname in
  if negb (has_magic pathname) then
    if negb (String.eqb basename "") then
      if path_lexists os w pathname then [pathname] else []
    else
      if path_isdir os w dirname then [pathname] else []
  else if String.eqb dirname "" then
    glob1 w "" basename
  else
    let dirs :=
      if negb (String.eqb dirname pathname) && has_magic dirname
      then expand_dirs os w dirname
      else [dirname] in
    let glob_in_dir := if has_magic basename then glob1 else glob0 in
    flat_map
      (fun dirname =>
         map (posixpath.join dirname) (glob_in_dir w dirname basename))
      dirs.

End Glob.

End glob.

(** ** Programs over OS requests *)

(** A program issues requests and continues with their answers.  A request
    that raises has no continuation to run: the interpreter stops there. *)
Inductive prog (A : Type) : Type :=
| Ret (a : A)
| GlobGlob (pathname : string) (k : list string -> prog A)
| OsMakedirs (name : string) (exist_ok : bool) (k : prog A)
| OsPathExists (path : string) (k : bool -> prog A)
| CheckCall (cmd : list string) (k : prog A).

Arguments Ret {A} a.
Arguments GlobGlob {A} pathname k.
Arguments OsMakedirs {A} name exist_ok k.
Arguments OsPathExists {A} path k.
Arguments CheckCall {A} cmd k.

Fixpoint bind {A B : Type} (m : prog A) (f : A -> prog B) : prog B :=
  match m with
  | Ret a => f a
  | GlobGlob p k => GlobGlob p (fun r => bind (k r) f)
  | OsMakedirs d e k => OsMakedirs d e (bind k f)
  | OsPathExists p k => OsPathExists p (fun r => bind (k r) f)
  | CheckCall c k => CheckCall c (bind k f)
  end.

Declare Scope prog_scope.
Delimit Scope prog_scope with prog.
Notation "x <- m ;; k" := (bind m (fun x => k))
  (at level 61, m at next level, right associativity) : prog_scope.
Notation "m ;; k" := (bind m (fun _ => k))
  (at level 61, right associativity) : prog_scope.

Definition glob_glob (pathname : string) : prog (list string) :=
  GlobGlob pathname (fun r => Ret r).
Definition os_makedirs (name : string) (exist_ok : bool) : prog unit :=
  OsMakedirs name exist_ok (Ret tt).
Definition os_path_exists (path : string) : prog bool :=
  OsPathExists path (fun r => Ret r).
Definition subprocess_check_call (cmd : list string) : prog unit :=
  CheckCall cmd (Ret tt).

(** [for x in xs: body(x)] *)
Fixpoint for_each {X : Type} (xs : list X) (body : X -> prog unit) : prog unit :=
  match xs with
  | [] => Ret tt
  | x :: xs' => (body x ;; for_each xs' body)%prog
  end.

(** ** Running a program *)

(** What the run leaves behind: every request with its answer. *)
Inductive event : Type :=
| EvGlob (pathname : string) (matches : list string)
| EvMakedirs (name : string) (exist_ok : bool) (error : option Z)
| EvExists (path : string) (answer : bool)
| EvCheckCall (cmd : list string) (returncode : Z).

Inductive result (A : Type) : Type :=
| Done (a : A)
| Raised (e : exn).

Arguments Done {A} a.
Arguments Raised {A} e.

Record outcome (World A : Type) : Type := Outcome {
  trace : list event;
  final : World;
  res : result A
}.

Section Exec.
Context {World : Type} (os : OS World).

(** [os.makedirs(name, exist_ok=...)]: the error of the last [mkdir] is
    swallowed exactly when [exist_ok] is set and [name] is a directory:
<<
    try:    mkdir(name, mode)
    except OSError:
        if not exist_ok or not path.isdir(name): raise
>> *)
Definition makedirs (w : World) (name : string) (exist_ok : bool)
    : World + Z * string :=
  match mkdir_chain os w name with
  | inl w' => inl w'
  | inr err =>
      if negb exist_ok || negb (path_isdir os w name) then inr err
      else inl w
  end.

Definition emit {A : Type} (ev : event) (o : outcome World A) : outcome World A :=
  Outcome (ev :: trace o) (final o) (res o).

Fixpoint exec {A : Type} (m : prog A) (w : World) : outcome World A :=
  match m with
  | Ret a => Outcome [] w (Done a)
  | GlobGlob p k =>
      let r := glob.glob os w p in
      emit (EvGlob p r) (exec (k r) w)
  | OsMakedirs d e k =>
      match makedirs w d e with
      | inl w' => emit (EvMakedirs d e None) (exec k w')
      | inr (errno, filename) =>
          Outcome [EvMakedirs d e (Some errno)] w (Raised (OSError errno filename))
      end
  | OsPathExists p k =>
      let r := path_exists os w p in
      emit (EvExists p r) (exec (k r) w)
  | CheckCall c k =>
      let '(w', rc) := spawn os w c in
      if Z.eqb rc 0 then emit (EvCheckCall c rc) (exec k w')
      else Outcome [EvCheckCall c rc] w' (Raised (CalledProcessError rc c))
  end.

End Exec.

(** ** [setup.py] *)

Definition NAME : string := "gs_interactive".
Definition VERSION : string := "0.3".
Definition PYTHON_REQUIRES : string := ">=3.7".
Definition REQUIRES : list string :=
  [ "urllib3 >= 1.25.3, < 2.1.0";
    "python-dateutil";
    "pydantic >= 2, <= 2.8.2";
    "typing-extensions >= 4.7.1";
    "neo4j >= 4.4.19";
    "gremlinpython >= 3.4.10";
    "protobuf >= 3.17.3" ].

Module BuildProto.

Section Command.
(** [sys.executable], the interpreter that runs the command. *)
Variable sys_executable : string.

(** The argument vector built in the loop body. *)
Definition protoc_cmd (proto_path output_dir proto_file : string) : list string :=
  [ sys_executable;
    "-m";
    "grpc_tools.protoc";
    "-I";
    proto_path;
    ("--python_out=" ++ output_dir)%string;
    ("--mypy_out=" ++ output_dir)%string;
    proto_file ].

(** One turn of the loop. *)
Definition compile_one (proto_path output_dir proto_file : string) : prog unit :=
  (found <- os_path_exists proto_file ;;
   let proto_file :=
     if negb found then posixpath.join proto_path proto_file
     else proto_file in
   subprocess_check_call (protoc_cmd proto_path output_dir proto_file))%prog.

Definition generate_proto (proto_path output_dir : string)
    (proto_files : option (list string)) : prog unit :=
  (proto_files <-
     match proto_files with
     | None => glob_glob (posixpath.join proto_path "*.proto")
     | Some l => Ret l
     end ;;
   os_makedirs output_dir true ;;
   for_each proto_files (compile_one proto_path output_dir))%prog.

Definition ir_proto_dir : string :=
  "../../../../interactive_engine/executor/ir/proto/".
Definition error_proto_dir : string := "../../../../proto/error".
Definition generated_dir : string := "./gs_interactive/client/generated/".

Definition run : prog unit :=
  (generate_proto ir_proto_dir generated_dir None ;;
   generate_proto error_proto_dir generated_dir (Some ["interactive.proto"]))%prog.

End Command.

End BuildProto.

(** ** A small concrete machine

    Used to run the command on explicit inputs.  A machine knows its
    directories (each with the names it lists), the paths of its regular
    files, and which proto files the compiler rejects. *)

Module Toy.

Record world : Type := World {
  dirs : list (string * list string);
  files : list string;
  broken : list string
}.

Definition mem (s : string) (l : list string) : bool :=
  existsb (String.eqb s) l.

Definition listing (w : world) (d : string) : list string :=
  match find (fun e => String.eqb (fst e) d) (dirs w) with
  | Some e => snd e
  | None => []
  end.

Definition is_dir (w : world) (p : string) : bool := mem p (map fst (dirs w)).
Definition is_present (w : world) (p : string) : bool := is_dir w p || mem p (files w).

(** [EEXIST] *)
Definition EEXIST : Z := 17.

Definition mkdir (w : world) (p : string) : world + Z * string :=
  if is_present w p then inr (EEXIST, p)
  else inl (World ((p, []) :: dirs w) (files w) (broken w)).

(** The compiler reads the file named by the last argument; it fails on
    a missing or rejected file and otherwise leaves a stub next to the
    other files. *)
Definition compile (w : world) (cmd : list string) : world * Z :=
  let src := last cmd "" in
  if mem src (files w) && negb (mem src (broken w))
  then (World (dirs w) ((src ++ ".stub")%string :: files w) (broken w), 0%Z)
  else (w, 1%Z).

Definition os : OS world := {|
  scandir := listing;
  expand_dirs := fun w pat =>
    List.filter (fun d => fnmatch.fnmatchcase d pat) (map fst (dirs w));
  path_lexists := is_present;
  path_exists := is_present;
  path_isdir := is_dir;
  mkdir_chain := mkdir;
  spawn := compile
|}.

Definition python : string := "/usr/bin/python3".

(** A checkout with two IR proto files (and two entries the glob must
    skip) and the error proto file. *)
Definition checkout : world := {|
  dirs :=
    [ ("../../../../interactive_engine/executor/ir/proto",
        ["algebra.proto"; "README.md"; ".hidden.proto"; "common.proto"]);
      ("../../../../proto/error", ["interactive.proto"]) ];
  files :=
    [ "../../../../interactive_engine/executor/ir/proto/algebra.proto";
      "../../../../interactive_engine/executor/ir/proto/common.proto";
      "../../../../proto/error/interactive.proto" ];
  broken := []
|}.

(** The same checkout with a first proto file the compiler rejects. *)
Definition checkout_broken : world := {|
  dirs := dirs checkout;
  files := files checkout;
  broken := ["../../../../interactive_engine/executor/ir/proto/algebra.proto"]
|}.


End Toy.

(** ** Reading a trace *)

(** The argument vectors of the compiler subprocesses, in spawn order. *)
Definition commands (tr : list event) : list (list string) :=
  flat_map (fun ev => match ev with EvCheckCall c _ => [c] | _ => [] end) tr.

(** The existence probes with their answers, in order. *)
Definition probes (tr : list event) : list (string * bool) :=
  flat_map (fun ev => match ev with EvExists p b => [(p, b)] | _ => [] end) tr.

(** The directories [os.makedirs] was asked to create. *)
Definition made_dirs (tr : list event) : list (string * bool) :=
  flat_map (fun ev => match ev with EvMakedirs d e _ => [(d, e)] | _ => [] end) tr.

(** The proto file of a command is its last argument. *)
Definition proto_file_of (cmd : list string) : string := last cmd "".

Definition compiled_files (tr : list event) : list string :=
  map proto_file_of (commands tr).

(** The file the loop body hands to the compiler for entry [f] when the
    probe of [f] answered [found]. *)
Definition resolved (proto_path : string) (pr : string * bool) : string :=
  if snd pr then fst pr else posixpath.join proto_path (fst pr).

(** ** The runs of the command *)

Section Runs.
Context {World : Type} (os : OS World).
Variable exe : string.

Import BuildProto.

(** Sequencing: the second part runs only if the first returned. *)
Definition then_run {A B : Type} (o : outcome World A)
    (k : A -> World -> outcome World B) : outcome World B :=
  match res o with
  | Done a =>
      let o' := k a (final o) in
      Outcome (trace o ++ trace o') (final o') (res o')
  | Raised e => Outcome (trace o) (final o) (Raised e)
  end.

(** The runs of the [for] loop of [generate_proto], one rule per way a
    turn can go. *)
Inductive loop_run (p o : string) :
  list string -> World -> list event -> World -> result unit -> Prop :=
| loop_end w :
    loop_run p o [] w [] w (Done tt)
| loop_fail f fs w w1 rc :
    let found := path_exists os w f in
    let cmd := protoc_cmd exe p o (resolved p (f, found)) in
    spawn os w cmd = (w1, rc) ->
    rc <> 0%Z ->
    loop_run p o (f :: fs) w
      [EvExists f found; EvCheckCall cmd rc] w1
      (Raised (CalledProcessError rc cmd))
| loop_turn f fs w w1 tr w' r :
    let found := path_exists os w f in
    let cmd := protoc_cmd exe p o (resolved p (f, found)) in
    spawn os w cmd = (w1, 0%Z) ->
    loop_run p o fs w1 tr w' r ->
    loop_run p o (f :: fs) w
      (EvExists f found :: EvCheckCall cmd 0 :: tr) w' r.

(** The files the loop of [generate_proto] iterates over. *)
Definition candidates (w : World) (p : string) (fs : option (list string)) : list string :=
  match fs with
  | None => glob.glob os w (posixpath.join p "*.proto")
  | Some l => l
  end.

(** The events before [os.makedirs]. *)
Definition prelude (w : World) (p : string) (fs : option (list string)) : list event :=
  match fs with
  | None => [EvGlob (posixpath.join p "*.proto") (candidates w p None)]
  | Some _ => []
  end.

(** The runs of [generate_proto]: either [os.makedirs] raises, or the
    loop runs in the machine it leaves. *)
Inductive generate_run (p o : string) (fs : option (list string)) (w : World) :
  outcome World unit -> Prop :=
| generate_no_dir errno filename :
    makedirs os w o true = inr (errno, filename) ->
    generate_run p o fs w
      (Outcome (prelude w p fs ++ [EvMakedirs o true (Some errno)]) w
               (Raised (OSError errno filename)))
| generate_loop w1 tr w' r :
    makedirs os w o true = inl w1 ->
    loop_run p o (candidates w p fs) w1 tr w' r ->
    generate_run p o fs w
      (Outcome (prelude w p fs ++ EvMakedirs o true None :: tr) w' r).

End Runs.

(** ** Reading a command line *)

(** [protoc] writes the stubs of a language to the directory named by
    the matching [--<lang>_out=] option. *)
Definition is_python_out (arg : string) : bool := pystr.startswith arg "--python_out=".
Definition is_mypy_out (arg : string) : bool := pystr.startswith arg "--mypy_out=".
Definition is_grpc_out (arg : string) : bool := pystr.startswith arg "--grpc_python_out=".

(** A command line that asks for Python stubs and for gRPC stubs. *)
Definition requests_python_and_grpc (cmd : list string) : bool :=
  existsb is_python_out cmd && existsb is_grpc_out cmd.

(** ** The proto files of a directory *)

(** A directory entry that the pattern ["*.proto"] selects: the name ends
    in [".proto"] and, as for every glob pattern that does not itself
    begin with a dot, is not hidden. *)
Definition matches_star_proto (name : string) : bool :=
  negb (pystr.startswith name ".") && pystr.endswith name ".proto".

(** The entries of directory [d] selected by ["*.proto"], as paths: in
    listing order, each prefixed with [d]; the empty [d] is the current
    directory and gives bare names. *)
Definition proto_files_in {World : Type} (os : OS World) (w : World) (d : string) : list string :=
  let names :=
    List.filter matches_star_proto
      (scandir os w (if String.eqb d "" then "." else d)) in
  if String.eqb d "" then names else map (posixpath.join d) names.

(** ** Machines and their directories *)

(** A machine on which a created directory is a directory, and on which
    running a command removes no directory. *)
Record keeps_directories {World : Type} (os : OS World) : Prop := {
  mkdir_makes_dir : forall w w' d,
    mkdir_chain os w d = inl w' -> path_isdir os w' d = true;
  spawn_keeps_dir : forall w c d,
    path_isdir os w d = true -> path_isdir os (fst (spawn os w c)) d = true
}.

(** ** Requests of the command *)

(** A request that only reads below [proto_path], or is a subprocess. *)
Definition reads_input_only (proto_path : string) (ev : event) : Prop :=
  match ev with
  | EvGlob pathname _ => pathname = posixpath.join proto_path "*.proto"
  | EvExists path _ => pystr.startswith path proto_path = true
  | EvMakedirs _ _ _ => False
  | EvCheckCall _ _ => True
  end.

(** A call that consults nothing but its input directory and, as long as
    it spawns no compiler, leaves the machine as it found it. *)
Definition touches_only_its_input {World : Type} (os : OS World) (exe : string)
    (proto_path output_dir : string) (proto_files : option (list string))
    (w : World) : Prop :=
  let out := exec os (BuildProto.generate_proto exe proto_path output_dir proto_files) w in
  Forall (reads_input_only proto_path) (trace out)
  /\ (commands (trace out) = [] -> final out = w).

(** The requests [generate_proto] does make, [cands] being the files it
    iterates over. *)
Definition own_request (exe proto_path output_dir : string)
    (proto_files : option (list string)) (cands : list string) (ev : event) : Prop :=
  match ev with
  | EvGlob pathname _ =>
      proto_files = None /\ pathname = posixpath.join proto_path "*.proto"
  | EvMakedirs name exist_ok _ => name = output_dir /\ exist_ok = true
  | EvExists path _ => In path cands
  | EvCheckCall cmd _ =>
      exists f found,
        In f cands
        /\ cmd = BuildProto.protoc_cmd exe proto_path output_dir
                   (resolved proto_path (f, found))
  end.

(** ** The protocol dispatcher *)

Module Dispatcher.

(** Modelled from the spec: the error taxonomy of section 7, as far as
    an invocation can surface it.  The repository has no source for the
    dispatcher. *)
Inductive error : Type :=
| TransportError
| InvocationError (status : Z) (message : string).

(** Modelled from the spec: what one send over the transport handle
    comes to (sections 4.3 and 7): a decoded response, a failure
    reported by the server, or a transient transport failure. *)
Inductive attempt (R : Type) : Type :=
| Delivered (r : R)
| ServerFailure (status : Z) (message : string)
| TransientFailure.

Arguments Delivered {R} r.
Arguments ServerFailure {R} status message.
Arguments TransientFailure {R}.

(** Modelled from the spec: the send loop of [invoke] (section 4.3,
    "retries idempotent operations on transient transport failure up to
    a fixed bound"): [transport n] is what the [n]-th send comes to,
    [retries] is how many retries are left.  The result comes with the
    number of sends made.  Waiting between sends is not modelled. *)
Fixpoint send (R : Type) (transport : nat -> attempt R) (n retries : nat)
    : (R + error) * nat :=
  match transport n with
  | Delivered r => (inl r, S n)
  | ServerFailure status message => (inr (InvocationError status message), S n)
  | TransientFailure =>
      match retries with
      | O => (inr TransportError, S n)
      | S retries' => send transport (S n) retries'
      end
  end.

(** Modelled from the spec: [invoke(stub, arguments)] (section 4.3) for
    a stub of an idempotent or non-idempotent operation:
    "non-idempotent operations surface failure immediately". *)
Definition invoke (R : Type) (retry_bound : nat) (idempotent : bool)
    (transport : nat -> attempt R) : (R + error) * nat :=
  send transport 0 (if idempotent then retry_bound else 0).

End Dispatcher.

(** ** Creating a directory twice *)

(** A machine on which creating a directory that is already there fails
    (with [EEXIST]), as [mkdir] does. *)
Definition mkdir_existing_fails {World : Type} (os : OS World) : Prop :=
  forall w d, path_isdir os w d = true -> exists err, mkdir_chain os w d = inr err.

(** A checkout whose proto directory lists an entry that is not there
    when probed (a dangling link). *)
Definition checkout_with_ghost : Toy.world := {|
  Toy.dirs := [ ("protos", ["ghost.proto"; "real.proto"]) ];
  Toy.files := [ "protos/real.proto" ];
  Toy.broken := []
|}.

(** ** Two readings of the build command *)

(** A call without a file list that compiles the ["*.proto"] entries of
    [proto_path], all of them and nothing else. *)
Definition compiles_exactly_the_matches {World : Type} (os : OS World) (exe : string)
    (proto_path output_dir : string) (w : World) : Prop :=
  let out := exec os (BuildProto.generate_proto exe proto_path output_dir None) w in
  compiled_files (trace out)
  = proto_files_in os w
      (fst (posixpath.split (posixpath.join proto_path "*.proto"))).



(** A proto directory with a dangling entry, next to a real file at the
    path the entry resolves to when it is not found. *)
Definition checkout_with_nested_ghost : Toy.world := {|
  Toy.dirs := [ ("protos", ["ghost.proto"]) ];
  Toy.files := [ "protos/protos/ghost.proto" ];
  Toy.broken := []
|}.


(** ** Facts about the string functions *)

Section StringFacts.

Lemma append_nil_r (s : string) : (s ++ "")%string = s.
Proof. induction s as [|c s IH]; simpl; [reflexivity | now rewrite IH]. Qed.

Lemma append_assoc (a b c : string) :
  ((a ++ b) ++ c)%string = (a ++ (b ++ c))%string.
Proof. induction a as [|x a IH]; simpl; [reflexivity | now rewrite IH]. Qed.

Lemma contains_append (a b : string) (c : ascii) :
  pystr.contains (a ++ b) c = pystr.contains a c || pystr.contains b c.
Proof.
  induction a as [|x a IH]; simpl; [reflexivity|].
  rewrite IH. now rewrite orb_assoc.
Qed.

Lemma endswith_cons (c : ascii) (s suf : string) :
  pystr.endswith (String c s) suf
  = String.eqb (String c s) suf || pystr.endswith s suf.
Proof. reflexivity. Qed.

(** [endswith] finds a decomposition, and every decomposition is found. *)
Lemma endswith_spec (s suf : string) :
  pystr.endswith s suf = true <-> exists pre, s = (pre ++ suf)%string.
Proof.
  split.
  - induction s as [|c s IH]; intros H.
    + destruct suf; [now exists "" | discriminate].
    + rewrite endswith_cons in H. apply orb_true_iff in H as [H|H].
      * apply String.eqb_eq in H. now exists "".
      * destruct (IH H) as [pre ->]. now exists (String c pre).
  - intros [pre ->]. induction pre as [|c pre IH].
    + destruct suf as [|d suf]; [reflexivity|].
      simpl append. rewrite endswith_cons. now rewrite String.eqb_refl.
    + simpl append. rewrite endswith_cons, IH. apply orb_true_r.
Qed.

Lemma startswith_spec (s pre : string) :
  pystr.startswith s pre = true <-> exists rest, s = (pre ++ rest)%string.
Proof.
  revert s. induction pre as [|c pre IH]; intros s; simpl.
  - split; [now exists s | reflexivity].
  - destruct s as [|d s]; simpl.
    + split; [discriminate | intros [? ?]; discriminate].
    + rewrite andb_true_iff, Ascii.eqb_eq, IH. split.
      * intros [-> [rest ->]]. now exists rest.
      * intros [rest H]. injection H as -> ->. split; [reflexivity | now exists rest].
Qed.

End StringFacts.

(** ** How programs run *)

Section ExecFacts.
Context {World : Type} (os : OS World).

Lemma then_run_emit {A B : Type} (ev : event) (o : outcome World A)
    (k : A -> World -> outcome World B) :
  then_run (emit ev o) k = emit ev (then_run o k).
Proof. unfold then_run, emit; simpl. now destruct (res o). Qed.

Lemma exec_bind {A B : Type} (m : prog A) (f : A -> prog B) (w : World) :
  exec os (bind m f) w = then_run (exec os m w) (fun a => exec os (f a)).
Proof.
  revert w. induction m as [a|p k IH|d e k IH|p k IH|c k IH]; intros w; simpl.
  - unfold then_run; simpl. now destruct (exec os (f a) w).
  - now rewrite IH, then_run_emit.
  - destruct (makedirs os w d e) as [w'|[errno filename]]; [|reflexivity].
    now rewrite IH, then_run_emit.
  - now rewrite IH, then_run_emit.
  - destruct (spawn os w c) as [w' rc]. destruct (Z.eqb rc 0); [|reflexivity].
    now rewrite IH, then_run_emit.
Qed.

(** A raising program ends the whole sequence it is part of. *)
Lemma exec_bind_raised {A B : Type} (m : prog A) (f : A -> prog B) (w : World) (e : exn) :
  res (exec os m w) = Raised e ->
  exec os (bind m f) w
  = Outcome (trace (exec os m w)) (final (exec os m w)) (Raised e).
Proof. intros H. rewrite exec_bind. unfold then_run. now rewrite H. Qed.

(** No program recovers from a failed subprocess: the failing call is
    the last event, and its error is the result. *)
Lemma failed_call_is_last {A : Type} (m : prog A) :
  forall (w : World) pre cmd rc post,
    trace (exec os m w) = pre ++ EvCheckCall cmd rc :: post ->
    rc <> 0%Z ->
    post = [] /\ res (exec os m w) = Raised (CalledProcessError rc cmd).
Proof.
  induction m as [a|p k IH|d e k IH|p k IH|c k IH]; intros w pre cmd rc post; simpl.
  - destruct pre; discriminate.
  - destruct pre as [|ev pre]; simpl; [discriminate|].
    intros H Hrc0; injection H as _ H. eapply IH; eassumption.
  - destruct (makedirs os w d e) as [w'|[errno filename]]; simpl.
    + destruct pre as [|ev pre]; simpl; [discriminate|].
      intros H Hrc0; injection H as _ H. eapply IH; eassumption.
    + destruct pre as [|ev [|ev' pre]]; discriminate.
  - destruct pre as [|ev pre]; simpl; [discriminate|].
    intros H Hrc0; injection H as _ H. eapply IH; eassumption.
  - destruct (spawn os w c) as [w' rc']. destruct (Z.eqb_spec rc' 0) as [->|Hrc]; simpl.
    + destruct pre as [|ev pre]; simpl.
      * intros H; injection H as _ <- _. now intros [].
      * intros H Hrc0; injection H as _ H. eapply IH; eassumption.
    + destruct pre as [|ev [|ev' pre]]; simpl; try discriminate.
      intros H; injection H as <- <- <-. now split.
Qed.

(** A run that raised [CalledProcessError] raised it for the last
    command it spawned, which exited with that non-zero status. *)
Lemma raised_call_is_last {A : Type} (m : prog A) :
  forall (w : World) rc cmd,
    res (exec os m w) = Raised (CalledProcessError rc cmd) ->
    rc <> 0%Z /\ exists pre, trace (exec os m w) = pre ++ [EvCheckCall cmd rc].
Proof.
  induction m as [a|p k IH|d e k IH|p k IH|c k IH]; intros w rc cmd; simpl.
  - discriminate.
  - intros H. destruct (IH _ _ _ _ H) as [Hrc [pre ->]].
    split; [assumption|]. now exists (EvGlob p (glob.glob os w p) :: pre).
  - destruct (makedirs os w d e) as [w'|[errno filename]]; simpl; [|discriminate].
    intros H. destruct (IH _ _ _ H) as [Hrc [pre ->]].
    split; [assumption|]. now exists (EvMakedirs d e None :: pre).
  - intros H. destruct (IH _ _ _ _ H) as [Hrc [pre ->]].
    split; [assumption|]. now exists (EvExists p (path_exists os w p) :: pre).
  - destruct (spawn os w c) as [w' rc']. destruct (Z.eqb_spec rc' 0) as [->|Hrc]; simpl.
    + intros H. destruct (IH _ _ _ H) as [Hrc [pre ->]].
      split; [assumption|]. now exists (EvCheckCall c 0 :: pre).
    + intros H; injection H as <- <-. split; [assumption|]. now exists [].
Qed.

End ExecFacts.

(** ** How the command runs *)

Section CommandFacts.
Context {World : Type} (os : OS World).
Variable exe : string.

Import BuildProto.

Lemma exec_loop_cons (p o f : string) (fs : list string) (w : World) :
  exec os (for_each (f :: fs) (compile_one exe p o)) w
  = let found := path_exists os w f in
    let cmd := protoc_cmd exe p o (resolved p (f, found)) in
    let '(w1, rc) := spawn os w cmd in
    if Z.eqb rc 0 then
      let out := exec os (for_each fs (compile_one exe p o)) w1 in
      Outcome (EvExists f found :: EvCheckCall cmd rc :: trace out)
              (final out) (res out)
    else
      Outcome [EvExists f found; EvCheckCall cmd rc] w1
              (Raised (CalledProcessError rc cmd)).
Proof.
  cbn [for_each]. rewrite exec_bind. unfold then_run, resolved.
  cbn [compile_one os_path_exists subprocess_check_call bind exec fst snd].
  destruct (path_exists os w f); cbn [negb];
    destruct (spawn os w _) as [w1 rc]; destruct (Z.eqb rc 0); reflexivity.
Qed.

Lemma exec_loop (p o : string) (fs : list string) :
  forall w,
    let out := exec os (for_each fs (compile_one exe p o)) w in
    loop_run os exe p o fs w (trace out) (final out) (res out).
Proof.
  induction fs as [|f fs IH]; intros w.
  - constructor.
  - cbv zeta. rewrite exec_loop_cons. cbv zeta.
    destruct (spawn os w _) as [w1 rc] eqn:Hs.
    destruct (Z.eqb_spec rc 0) as [->|Hrc]; cbn [trace final res].
    + eapply loop_turn; [exact Hs | apply IH].
    + eapply loop_fail; [exact Hs | exact Hrc].
Qed.

Lemma exec_after_makedirs (p o : string) (l : list string) (w : World) :
  exec os (os_makedirs o true ;; for_each l (compile_one exe p o))%prog w
  = match makedirs os w o true with
    | inl w1 =>
        let out := exec os (for_each l (compile_one exe p o)) w1 in
        Outcome (EvMakedirs o true None :: trace out) (final out) (res out)
    | inr (errno, filename) =>
        Outcome [EvMakedirs o true (Some errno)] w (Raised (OSError errno filename))
    end.
Proof. simpl. now destruct (makedirs os w o true) as [w1|[errno filename]]. Qed.

Lemma exec_generate_proto (p o : string) (fs : option (list string)) (w : World) :
  generate_run os exe p o fs w (exec os (generate_proto exe p o fs) w).
Proof.
  unfold generate_proto.
  destruct fs as [l|].
  - change (generate_run os exe p o (Some l) w
      (exec os (os_makedirs o true ;; for_each l (compile_one exe p o))%prog w)).
    rewrite exec_after_makedirs.
    destruct (makedirs os w o true) as [w1|[errno filename]] eqn:Hm.
    + apply (@generate_loop _ os exe p o (Some l) w w1 _ _ _ Hm). apply exec_loop.
    + apply (@generate_no_dir _ os exe p o (Some l) w errno filename Hm).
  - change (generate_run os exe p o None w
      (emit (EvGlob (posixpath.join p "*.proto") (candidates os w p None))
         (exec os (os_makedirs o true ;;
                   for_each (candidates os w p None) (compile_one exe p o))%prog w))).
    rewrite exec_after_makedirs.
    destruct (makedirs os w o true) as [w1|[errno filename]] eqn:Hm.
    + apply (@generate_loop _ os exe p o None w w1 _ _ _ Hm). apply exec_loop.
    + apply (@generate_no_dir _ os exe p o None w errno filename Hm).
Qed.

End CommandFacts.

(** ** What a run of the loop leaves in the trace *)

Section TraceFacts.
Context {World : Type} (os : OS World).
Variable exe : string.

Import BuildProto.

Lemma commands_app (a b : list event) : commands (a ++ b) = commands a ++ commands b.
Proof. apply flat_map_app. Qed.

Lemma probes_app (a b : list event) : probes (a ++ b) = probes a ++ probes b.
Proof. apply flat_map_app. Qed.

Lemma made_dirs_app (a b : list event) : made_dirs (a ++ b) = made_dirs a ++ made_dirs b.
Proof. apply flat_map_app. Qed.

Lemma prelude_commands (w : World) p fs : commands (prelude os w p fs) = [].
Proof. now destruct fs. Qed.

Lemma prelude_probes (w : World) p fs : probes (prelude os w p fs) = [].
Proof. now destruct fs. Qed.

Lemma prelude_made_dirs (w : World) p fs : made_dirs (prelude os w p fs) = [].
Proof. now destruct fs. Qed.

Lemma proto_file_of_cmd p o f : proto_file_of (protoc_cmd exe p o f) = f.
Proof. reflexivity. Qed.

(** Every turn probes the entry itself and spawns one compiler on the
    resolved file; turns follow the list in order, to its end unless a
    compiler fails. *)
Lemma loop_trace_shape p o fs w tr w' r :
  loop_run os exe p o fs w tr w' r ->
  commands tr = map (fun pr => protoc_cmd exe p o (resolved p pr)) (probes tr)
  /\ made_dirs tr = []
  /\ (exists k, map fst (probes tr) = firstn k fs)
  /\ (r = Done tt -> map fst (probes tr) = fs).
Proof.
  induction 1 as [w|f fs w w1 rc found cmd Hs Hrc
                  |f fs w w1 tr w' r found cmd Hs Hl IH].
  - repeat split; [now exists 0%nat].
  - repeat split; [now exists 1%nat | discriminate].
  - destruct IH as (Hc & Hm & [k Hk] & Hd).
    change (commands (EvExists f found :: EvCheckCall cmd 0 :: tr))
      with (cmd :: commands tr).
    change (probes (EvExists f found :: EvCheckCall cmd 0 :: tr))
      with ((f, found) :: probes tr).
    change (made_dirs (EvExists f found :: EvCheckCall cmd 0 :: tr))
      with (made_dirs tr).
    repeat split.
    + now rewrite Hc.
    + exact Hm.
    + exists (S k). cbn [map fst firstn]. now rewrite Hk.
    + intros E. cbn [map fst]. now rewrite (Hd E).
Qed.

Lemma generate_trace_shape p o fs w out :
  generate_run os exe p o fs w out ->
  commands (trace out)
  = map (fun pr => protoc_cmd exe p o (resolved p pr)) (probes (trace out))
  /\ (exists k, map fst (probes (trace out)) = firstn k (candidates os w p fs))
  /\ (res out = Done tt -> map fst (probes (trace out)) = candidates os w p fs).
Proof.
  intros [errno filename Hm|w1 tr w' r Hm Hl]; cbn [trace res].
  - rewrite commands_app, probes_app, prelude_commands, prelude_probes. cbn.
    repeat split; [now exists 0%nat | discriminate].
  - destruct (loop_trace_shape Hl) as (Hc & _ & Hk & Hd).
    rewrite commands_app, probes_app, prelude_commands, prelude_probes. cbn.
    now repeat split.
Qed.

Lemma generate_commands_shape p o fs w :
  Forall (fun cmd => exists f, cmd = protoc_cmd exe p o f)
         (commands (trace (exec os (generate_proto exe p o fs) w))).
Proof.
  destruct (generate_trace_shape (exec_generate_proto os exe p o fs w)) as (-> & _).
  apply Forall_forall. intros cmd Hin. apply in_map_iff in Hin as (pr & <- & _).
  now exists (resolved p pr).
Qed.

Lemma generate_commands_count p o fs w :
  let out := exec os (generate_proto exe p o fs) w in
  (length (commands (trace out)) <= length (candidates os w p fs))%nat
  /\ (res out = Done tt ->
      length (commands (trace out)) = length (candidates os w p fs)).
Proof.
  cbv zeta.
  destruct (generate_trace_shape (exec_generate_proto os exe p o fs w))
    as (-> & [k Hk] & Hd).
  rewrite length_map, <- (length_map fst). split.
  - rewrite Hk, length_firstn. lia.
  - intros E. now rewrite (Hd E).
Qed.

Lemma generate_made_dirs p o fs w :
  made_dirs (trace (exec os (generate_proto exe p o fs) w)) = [(o, true)].
Proof.
  destruct (exec_generate_proto os exe p o fs w) as [errno filename Hm|w1 tr w' r Hm Hl];
    cbn [trace]; rewrite made_dirs_app, prelude_made_dirs; [reflexivity|].
  destruct (loop_trace_shape Hl) as (_ & Hn & _).
  change (made_dirs (EvMakedirs o true None :: tr)) with ((o, true) :: made_dirs tr).
  now rewrite Hn.
Qed.

End TraceFacts.

(** ** What [glob] returns for the pattern of the command *)

Section GlobFacts.
Context {World : Type} (os : OS World).

(** A pattern without wildcards matches exactly itself. *)
Lemma match_literal (pat : string) :
  pystr.contains pat "*" = false ->
  pystr.contains pat "?" = false ->
  forall name, fnmatch.match_pat pat name = String.eqb name pat.
Proof.
  induction pat as [|c pat IH]; intros Hs Hq name.
  - reflexivity.
  - cbn [pystr.contains] in Hs, Hq.
    apply orb_false_iff in Hs as [Hs1 Hs2]. apply orb_false_iff in Hq as [Hq1 Hq2].
    cbn [fnmatch.match_pat]. rewrite Ascii.eqb_sym, Hs1.
    destruct name as [|d name]; [reflexivity|].
    rewrite (Ascii.eqb_sym c "?"), Hq1, (IH Hs2 Hq2). cbn [orb String.eqb].
    rewrite (Ascii.eqb_sym c d). now destruct (Ascii.eqb d c).
Qed.

Lemma match_star (pat name : string) :
  fnmatch.match_pat (String "*" pat) name
  = fnmatch.match_pat pat name
    || match name with
       | EmptyString => false
       | String _ name' => fnmatch.match_pat (String "*" pat) name'
       end.
Proof. now destruct name. Qed.

(** Matching ["*.proto"] is ending in [".proto"]. *)
Lemma fnmatch_star_proto (name : string) :
  fnmatch.fnmatchcase name "*.proto" = pystr.endswith name ".proto".
Proof.
  unfold fnmatch.fnmatchcase.
  induction name as [|c name IH].
  - reflexivity.
  - rewrite match_star, endswith_cons, IH.
    now rewrite match_literal by reflexivity.
Qed.

Lemma contains_rstrip (s : string) (x c : ascii) :
  pystr.contains (pystr.rstrip s x) c = true -> pystr.contains s c = true.
Proof.
  induction s as [|d s IH]; cbn [pystr.rstrip pystr.contains]; [easy|].
  destruct (Ascii.eqb x d && pystr.all_chars x s); cbn [pystr.contains]; [easy|].
  intros H. apply orb_true_iff in H as [H|H]; apply orb_true_iff; auto.
Qed.

Lemma split_at_last_sep_no_sep (t : string) :
  pystr.contains t posixpath.sep = false ->
  posixpath.split_at_last_sep t = ("", t).
Proof.
  induction t as [|c t IH]; intros H; [reflexivity|].
  cbn [pystr.contains] in H. apply orb_false_iff in H as [H1 H2].
  cbn [posixpath.split_at_last_sep]. rewrite (IH H2), H2.
  rewrite Ascii.eqb_sym, H1. reflexivity.
Qed.

Lemma split_at_last_sep_append (a t : string) :
  pystr.contains t posixpath.sep = false ->
  posixpath.split_at_last_sep (a ++ String posixpath.sep t) = ((a ++ "/")%string, t).
Proof.
  intros Ht. induction a as [|c a IH].
  - cbn [append posixpath.split_at_last_sep].
    rewrite (split_at_last_sep_no_sep _ Ht), Ht. reflexivity.
  - cbn [append posixpath.split_at_last_sep]. rewrite IH.
    rewrite contains_append. cbn [pystr.contains].
    replace (Ascii.eqb posixpath.sep posixpath.sep) with true by reflexivity.
    now rewrite orb_true_r.
Qed.

(** The part of [join p "*.proto"] up to its last slash. *)
Lemma pattern_head (p : string) :
  posixpath.split_at_last_sep (posixpath.join p "*.proto")
  = (if String.eqb p "" then ""
     else if pystr.endswith p "/" then p
     else (p ++ "/")%string,
     "*.proto").
Proof.
  unfold posixpath.join. cbn [pystr.startswith Ascii.eqb Bool.eqb andb].
  destruct (String.eqb_spec p "") as [->|Hp]; [reflexivity|].
  cbn [orb]. destruct (pystr.endswith p "/") eqn:He.
  - apply endswith_spec in He as [a ->].
    rewrite append_assoc. apply (split_at_last_sep_append a "*.proto"). reflexivity.
  - apply (split_at_last_sep_append p "*.proto"). reflexivity.
Qed.

Lemma split_pattern_tail (p : string) :
  snd (posixpath.split (posixpath.join p "*.proto")) = "*.proto".
Proof.
  unfold posixpath.split. rewrite pattern_head.
  now destruct (negb _ && negb _).
Qed.

Lemma split_pattern_head_no_magic (p : string) :
  glob.has_magic p = false ->
  glob.has_magic (fst (posixpath.split (posixpath.join p "*.proto"))) = false.
Proof.
  intros Hp. unfold posixpath.split. rewrite pattern_head.
  set (h := if String.eqb p "" then "" else if pystr.endswith p "/" then p else (p ++ "/")%string).
  assert (Hh : glob.has_magic h = false).
  { unfold h. destruct (String.eqb p ""); [reflexivity|].
    destruct (pystr.endswith p "/"); [assumption|].
    unfold glob.has_magic in *. rewrite !contains_append.
    apply orb_false_iff in Hp as [Hp H3]. apply orb_false_iff in Hp as [H1 H2].
    rewrite H1, H2, H3. reflexivity. }
  destruct (negb _ && negb _); cbn [fst]; [|assumption].
  unfold glob.has_magic in *.
  apply orb_false_iff in Hh as [Hh H3]. apply orb_false_iff in Hh as [H1 H2].
  destruct (pystr.contains (pystr.rstrip h posixpath.sep) "*") eqn:E1;
    [apply contains_rstrip in E1; congruence|].
  destruct (pystr.contains (pystr.rstrip h posixpath.sep) "?") eqn:E2;
    [apply contains_rstrip in E2; congruence|].
  destruct (pystr.contains (pystr.rstrip h posixpath.sep) "[") eqn:E3;
    [apply contains_rstrip in E3; congruence|].
  reflexivity.
Qed.

Lemma pattern_has_magic (p : string) :
  glob.has_magic (posixpath.join p "*.proto") = true.
Proof.
  unfold posixpath.join. cbn [pystr.startswith Ascii.eqb Bool.eqb andb].
  unfold glob.has_magic.
  destruct (String.eqb p "" || pystr.endswith p "/");
    rewrite !contains_append; cbn; now rewrite !orb_true_r.
Qed.

(** The entries of a listing that [glob] keeps for ["*.proto"]: names
    that end in [".proto"] and do not begin with a dot. *)
Lemma glob1_star_proto (w : World) (d : string) :
  glob.glob1 os w d "*.proto"
  = List.filter (fun n => pystr.endswith n ".proto")
      (List.filter (fun n => negb (pystr.startswith n "."))
         (scandir os w (if String.eqb d "" then "." else d))).
Proof.
  unfold glob.glob1, fnmatch.filter. cbn [glob.ishidden pystr.startswith Ascii.eqb Bool.eqb andb negb].
  apply filter_ext. intros n. apply fnmatch_star_proto.
Qed.

(** [glob] on the pattern of the command, for a directory without
    wildcard characters. *)
Lemma glob_star_proto (w : World) (p : string) :
  glob.has_magic p = false ->
  let d := fst (posixpath.split (posixpath.join p "*.proto")) in
  glob.glob os w (posixpath.join p "*.proto")
  = if String.eqb d "" then glob.glob1 os w "" "*.proto"
    else map (posixpath.join d) (glob.glob1 os w d "*.proto").
Proof.
  intros Hp d. unfold glob.glob.
  pose proof (split_pattern_tail p) as Ht.
  pose proof (split_pattern_head_no_magic p Hp) as Hd. fold d in Hd.
  subst d.
  destruct (posixpath.split (posixpath.join p "*.proto")) as [d b].
  cbn [fst snd] in *. subst b.
  rewrite pattern_has_magic. cbn [negb].
  destruct (String.eqb d ""); [reflexivity|].
  rewrite Hd, andb_false_r.
  replace (glob.has_magic "*.proto") with true by reflexivity.
  cbn [flat_map]. apply app_nil_r.
Qed.

End GlobFacts.

(** ** The build command: command lines and their number *)

Section CommandLines.
Context {World : Type} (os : OS World).
Variable exe : string.

Import BuildProto.

Lemma in_firstn {X : Type} (k : nat) (l : list X) (x : X) :
  In x (firstn k l) -> In x l.
Proof.
  intros H. rewrite <- (firstn_skipn k l). apply in_or_app. now left.
Qed.

(** Every command of a call compiles the resolution of a candidate. *)
Lemma generate_commands_resolved p o fs w cmd :
  In cmd (commands (trace (exec os (generate_proto exe p o fs) w))) ->
  exists f found,
    In f (candidates os w p fs)
    /\ cmd = protoc_cmd exe p o (resolved p (f, found)).
Proof.
  destruct (generate_trace_shape (exec_generate_proto os exe p o fs w))
    as (-> & [k Hk] & _).
  intros Hin. apply in_map_iff in Hin as ([f found] & <- & Hin).
  exists f, found. split; [|reflexivity].
  apply (in_firstn k). rewrite <- Hk.
  apply in_map_iff. now exists (f, found).
Qed.

Lemma exec_run (w : World) :
  exec os (run exe) w
  = then_run (exec os (generate_proto exe ir_proto_dir generated_dir None) w)
      (fun _ => exec os (generate_proto exe error_proto_dir generated_dir
                           (Some ["interactive.proto"]))).
Proof. unfold run. apply exec_bind. Qed.

Lemma then_run_trace {A B : Type} (o : outcome World A)
    (k : A -> World -> outcome World B) :
  trace (then_run o k)
  = trace o ++ match res o with
               | Done a => trace (k a (final o))
               | Raised _ => []
               end.
Proof. unfold then_run. destruct (res o); cbn; [reflexivity | now rewrite app_nil_r]. Qed.

Lemma then_run_res_done {A B : Type} (o : outcome World A)
    (k : A -> World -> outcome World B) (b : B) :
  res (then_run o k) = Done b ->
  exists a, res o = Done a /\ res (k a (final o)) = Done b.
Proof. unfold then_run. destruct (res o) as [a|e]; cbn; [now exists a | discriminate]. Qed.

(** A path joined onto a directory that begins with a dot is not an
    option. *)
Lemma join_dot_not_option (a b : string) :
  pystr.startswith a "." = true ->
  pystr.startswith (posixpath.join a b) "--" = false.
Proof.
  intros Ha. destruct a as [|c a]; [discriminate|].
  cbn [pystr.startswith] in Ha.
  apply andb_true_iff in Ha as [Hc _]. apply Ascii.eqb_eq in Hc as <-.
  unfold posixpath.join.
  destruct b as [|d b]; cbn [pystr.startswith].
  - destruct (_ || _); reflexivity.
  - destruct (Ascii.eqb_spec "/" d) as [<-|Hd]; cbn [andb].
    + reflexivity.
    + destruct (_ || _); reflexivity.
Qed.

(** C1 (as amended).  Every command line built by [generate_proto] is
    the interpreter, [-m grpc_tools.protoc], [-I proto_path], the option
    [--python_out=output_dir], the option [--mypy_out=output_dir] and the
    proto file: it asks for Python stubs and for mypy type stubs.  None
    of the arguments the function writes itself is a gRPC stub output
    option; one can only come from the caller's own strings. *)
Theorem generate_proto_requests_python_and_mypy_stubs :
  forall (p o : string) (fs : option (list string)) (w : World),
    Forall
      (fun cmd =>
         exists f,
           cmd = [ exe; "-m"; "grpc_tools.protoc"; "-I"; p;
                   ("--python_out=" ++ o)%string;
                   ("--mypy_out=" ++ o)%string; f ]
           /\ existsb is_python_out cmd = true
           /\ existsb is_mypy_out cmd = true
           /\ forall arg, In arg cmd -> is_grpc_out arg = true ->
                          arg = exe \/ arg = p \/ arg = f)
      (commands (trace (exec os (generate_proto exe p o fs) w))).
Proof.
  intros p o fs w.
  eapply Forall_impl; [|apply generate_commands_shape].
  intros cmd [f ->]. exists f. unfold protoc_cmd. repeat split.
  - apply existsb_exists. exists ("--python_out=" ++ o)%string.
    split; [cbn; tauto | reflexivity].
  - apply existsb_exists. exists ("--mypy_out=" ++ o)%string.
    split; [cbn; tauto | reflexivity].
  - intros arg Hin Hg. cbn [In] in Hin.
    destruct Hin as [<-|[<-|[<-|[<-|[<-|[<-|[<-|[<-|[]]]]]]]]];
      try discriminate Hg; auto.
Qed.

(** C2 (as amended).  A run that returns has spawned one compiler for
    each match of the glob in the first proto directory and one more for
    the error proto file; a run that raises has spawned at most that
    many.  [run] makes its second call of [generate_proto] only when the
    first returns: each call asks for the output directory once, a run
    whose first call returns asks twice, and a run whose first call
    raises is that call and nothing more. *)
Theorem run_spawns_one_compiler_per_match_and_one_more :
  forall (w : World),
    let out := exec os (run exe) w in
    let first := exec os (generate_proto exe ir_proto_dir generated_dir None) w in
    let n := length (glob.glob os w (posixpath.join ir_proto_dir "*.proto")) in
    (length (commands (trace out)) <= n + 1)%nat
    /\ (res out = Done tt -> length (commands (trace out)) = (n + 1)%nat)
    /\ (res first = Done tt -> length (made_dirs (trace out)) = 2%nat)
    /\ (forall e, res first = Raised e ->
                  length (made_dirs (trace out)) = 1%nat
                  /\ trace out = trace first).
Proof.
  intros w out first n. subst out.
  rewrite exec_run, then_run_trace, commands_app, made_dirs_app, !length_app.
  fold first.
  destruct (generate_commands_count os exe ir_proto_dir generated_dir None w)
    as [Hle Heq]. fold first in Hle, Heq. cbn [candidates] in Hle, Heq. fold n in Hle, Heq.
  assert (Hm1 : made_dirs (trace first) = [(generated_dir, true)])
    by apply generate_made_dirs.
  split; [|split; [|split]].
  - destruct (res first) as [[]|e]; cbn [commands flat_map length]; [|lia].
    destruct (generate_commands_count os exe error_proto_dir generated_dir
                (Some ["interactive.proto"]) (final first)) as [Hle2 _].
    cbn [candidates length] in Hle2. lia.
  - intros Hd. apply then_run_res_done in Hd as ([] & Hd1 & Hd2).
    fold first in Hd1, Hd2. rewrite Hd1. rewrite (Heq Hd1).
    destruct (generate_commands_count os exe error_proto_dir generated_dir
                (Some ["interactive.proto"]) (final first)) as [_ Heq2].
    rewrite (Heq2 Hd2). cbn [candidates length]. lia.
  - intros Hd. rewrite Hd, Hm1, generate_made_dirs. reflexivity.
  - intros e He. rewrite He, Hm1. cbn [made_dirs flat_map length].
    now rewrite app_nil_r.
Qed.

End CommandLines.

(** ** The build command: which files, into which directory *)

Section Files.
Context {World : Type} (os : OS World).
Variable exe : string.

Import BuildProto.

Lemma filter_filter {X : Type} (f g : X -> bool) (l : list X) :
  List.filter f (List.filter g l) = List.filter (fun x => g x && f x) l.
Proof.
  induction l as [|x l IH]; [reflexivity|]. cbn [List.filter].
  destruct (g x); cbn [andb List.filter]; [|assumption].
  destruct (f x); now rewrite IH.
Qed.

(** The glob of the command selects the proto files of the directory. *)
Lemma glob_proto_files (w : World) (p : string) :
  glob.has_magic p = false ->
  glob.glob os w (posixpath.join p "*.proto")
  = proto_files_in os w (fst (posixpath.split (posixpath.join p "*.proto"))).
Proof.
  intros Hp. rewrite (glob_star_proto os w p Hp). unfold proto_files_in.
  set (d := fst (posixpath.split (posixpath.join p "*.proto"))).
  rewrite !glob1_star_proto, !filter_filter.
  destruct (String.eqb_spec d "") as [->|Hd]; reflexivity.
Qed.

Lemma ir_glob_member (w : World) (g : string) :
  In g (glob.glob os w (posixpath.join ir_proto_dir "*.proto")) ->
  exists n, g = posixpath.join "../../../../interactive_engine/executor/ir/proto" n.
Proof.
  rewrite (glob_star_proto os w ir_proto_dir) by reflexivity.
  replace (fst (posixpath.split (posixpath.join ir_proto_dir "*.proto")))
    with "../../../../interactive_engine/executor/ir/proto" by reflexivity.
  cbn [String.eqb Ascii.eqb Bool.eqb].
  intros Hin. apply in_map_iff in Hin as (n & <- & _). now exists n.
Qed.

(** C3.  [run] calls [generate_proto] twice, both times with the output
    directory [./gs_interactive/client/generated/]; that directory is the
    only one it creates, and every compiler it spawns is told to write
    both its Python stubs and its mypy stubs there: these two are the
    only options among the arguments of any command. *)
Theorem run_compiles_into_generated_dir :
  forall (w : World),
    let out := exec os (run exe) w in
    run exe
    = (generate_proto exe ir_proto_dir "./gs_interactive/client/generated/" None ;;
       generate_proto exe error_proto_dir "./gs_interactive/client/generated/"
         (Some ["interactive.proto"]))%prog
    /\ Forall (fun d => fst d = "./gs_interactive/client/generated/")
              (made_dirs (trace out))
    /\ Forall
         (fun cmd =>
            nth 5 cmd "" = "--python_out=./gs_interactive/client/generated/"
            /\ nth 6 cmd "" = "--mypy_out=./gs_interactive/client/generated/"
            /\ forall arg,
                 In arg (tl cmd) -> pystr.startswith arg "--" = true ->
                 arg = "--python_out=./gs_interactive/client/generated/"
                 \/ arg = "--mypy_out=./gs_interactive/client/generated/")
         (commands (trace out)).
Proof.
  intros w out. split; [reflexivity|]. subst out.
  rewrite exec_run, then_run_trace, made_dirs_app, commands_app.
  set (o1 := exec os (generate_proto exe ir_proto_dir generated_dir None) w).
  split; apply Forall_app; split.
  - unfold o1. rewrite generate_made_dirs. now repeat constructor.
  - destruct (res o1) as [[]|e]; [|constructor].
    rewrite generate_made_dirs. now repeat constructor.
  - apply Forall_forall. intros cmd Hin.
    apply generate_commands_resolved in Hin as (f & found & Hf & ->).
    repeat split. intros arg Hin Harg. cbn [candidates] in Hf.
    apply ir_glob_member in Hf as [n ->].
    cbn [protoc_cmd tl In] in Hin.
    destruct Hin as [<-|[<-|[<-|[<-|[<-|[<-|[<-|[]]]]]]]];
      try discriminate Harg; auto.
    exfalso. unfold resolved in Harg. cbn [fst snd] in Harg.
    destruct found; rewrite join_dot_not_option in Harg by reflexivity;
      discriminate.
  - destruct (res o1) as [[]|e]; [|constructor].
    apply Forall_forall. intros cmd Hin.
    apply generate_commands_resolved in Hin as (f & found & Hf & ->).
    repeat split. intros arg Hin Harg. cbn [candidates In] in Hf.
    destruct Hf as [<-|[]].
    cbn [protoc_cmd tl In] in Hin.
    destruct Hin as [<-|[<-|[<-|[<-|[<-|[<-|[<-|[]]]]]]]];
      try discriminate Harg; auto.
    exfalso. destruct found; discriminate Harg.
Qed.

(** C4 (as amended).  Called without a file list, for a directory name
    free of wildcard characters, [generate_proto] walks the entries of
    [proto_path] that match ["*.proto"], in listing order, and nothing
    else, spawning one compiler for each entry it reaches; a call that
    returns has reached all of them.  The compiler of an entry is given
    the matched path itself whenever that path is found to exist. *)
Theorem generate_proto_compiles_the_globbed_files :
  forall (p o : string) (w : World),
    let out := exec os (generate_proto exe p o None) w in
    let matching :=
      proto_files_in os w (fst (posixpath.split (posixpath.join p "*.proto"))) in
    glob.has_magic p = false ->
    (exists k, map fst (probes (trace out)) = firstn k matching)
    /\ length (commands (trace out)) = length (probes (trace out))
    /\ (forall i g,
          nth_error (probes (trace out)) i = Some (g, true) ->
          nth_error (compiled_files (trace out)) i = Some g)
    /\ (res out = Done tt ->
        map fst (probes (trace out)) = matching
        /\ length (commands (trace out)) = length matching
        /\ (Forall (fun pr => snd pr = true) (probes (trace out)) ->
            compiled_files (trace out) = matching)).
Proof.
  intros p o w out matching Hp. subst out matching.
  rewrite <- (glob_proto_files w p Hp).
  destruct (generate_trace_shape (exec_generate_proto os exe p o None w))
    as (Hc & Hk & Hd).
  cbn [candidates] in Hk, Hd. split; [exact Hk|].
  split; [now rewrite Hc, length_map|]. split.
  - intros i g Hn. unfold compiled_files.
    rewrite Hc, map_map, nth_error_map, Hn. reflexivity.
  - intros Hdone. specialize (Hd Hdone). split; [exact Hd|]. split.
    + rewrite Hc, length_map, <- (length_map fst). now rewrite Hd.
    + intros Hall. unfold compiled_files. rewrite Hc, map_map, <- Hd.
      apply map_ext_in. intros [f found] Hin. rewrite proto_file_of_cmd.
      rewrite Forall_forall in Hall. specialize (Hall _ Hin). cbn in Hall.
      subst found. reflexivity.
Qed.

End Files.

(** ** The build command: what settles the command lines *)

Section NthCommand.
Context {World : Type} (os : OS World).
Variable exe : string.

Import BuildProto.


End NthCommand.

Section Determinism.
Context {World1 World2 : Type} (os1 : OS World1) (os2 : OS World2).
Variable exe : string.

Import BuildProto.


End Determinism.

(** ** The build command: effects, failures, the output directory *)

Section Effects.
Context {World : Type} (os : OS World).
Variable exe : string.

Import BuildProto.

Lemma loop_requests p o fs0 fs w tr w' r :
  loop_run os exe p o fs w tr w' r ->
  forall cands,
    incl fs cands ->
    Forall (own_request exe p o fs0 cands) tr
    /\ (commands tr = [] -> w' = w).
Proof.
  induction 1 as [w|f fs w w1 rc found cmd Hs Hrc
                  |f fs w w1 tr w' r found cmd Hs Hl IH]; intros cands Hi.
  - split; [constructor | reflexivity].
  - split; [|discriminate].
    assert (Hf : In f cands) by (apply Hi; now left).
    repeat constructor; [exact Hf | now exists f, found].
  - split; [|discriminate].
    assert (Hf : In f cands) by (apply Hi; now left).
    destruct (IH cands) as [Ht _]; [intros x Hx; apply Hi; now right|].
    repeat constructor; [exact Hf | now exists f, found | exact Ht].
Qed.

Lemma makedirs_inl (w w1 : World) (d : string) (e : bool) :
  makedirs os w d e = inl w1 ->
  w1 = w \/ mkdir_chain os w d = inl w1.
Proof.
  unfold makedirs. destruct (mkdir_chain os w d) as [w2|errno].
  - intros H; injection H as ->. now right.
  - destruct (negb e || negb (path_isdir os w d)); [discriminate|].
    intros H; injection H as ->. now left.
Qed.

(** With [exist_ok] set, an existing directory is not an error. *)
Lemma makedirs_exist_ok (w : World) (d : string) :
  path_isdir os w d = true -> exists w1, makedirs os w d true = inl w1.
Proof.
  intros Hd. unfold makedirs. destruct (mkdir_chain os w d) as [w1|errno].
  - now exists w1.
  - rewrite Hd. now exists w.
Qed.

(** C6 (as amended).  The requests [generate_proto] makes itself are:
    the glob of ["*.proto"] in [proto_path], only when no file list is
    given; the creation of [output_dir] with [exist_ok=True]; one
    existence probe for each file it iterates over, on the path as
    given; and the compiler subprocesses.  Its own only change to the
    machine is the creation of [output_dir]: a call that spawns no
    compiler leaves the machine as it found it or as the creation of
    [output_dir] left it. *)
Theorem generate_proto_own_requests :
  forall (p o : string) (fs : option (list string)) (w : World),
    let out := exec os (generate_proto exe p o fs) w in
    Forall (own_request exe p o fs (candidates os w p fs)) (trace out)
    /\ (commands (trace out) = [] ->
        final out = w \/ mkdir_chain os w o = inl (final out)).
Proof.
  intros p o fs w out. subst out.
  destruct (exec_generate_proto os exe p o fs w) as [errno filename Hm|w1 tr w' r Hm Hl];
    cbn [trace final].
  - split; [|now left].
    apply Forall_app. split; [destruct fs; now repeat constructor|].
    now repeat constructor.
  - destruct (loop_requests fs Hl (incl_refl _)) as [Ht Hw].
    split.
    + apply Forall_app. split; [destruct fs; now repeat constructor|].
      constructor; [now split | exact Ht].
    + rewrite commands_app, prelude_commands. cbn [app].
      change (commands (EvMakedirs o true None :: tr)) with (commands tr).
      intros Hc. rewrite (Hw Hc). apply (makedirs_inl _ _ _ Hm).
Qed.

(** C7.  A compiler that exits with a non-zero status is the last thing
    a call of [generate_proto] does: no request follows it, and the call
    raises [CalledProcessError] for that command.  In [run], a first
    call that raises is all that happens: the second call makes no
    request. *)
Theorem failed_compiler_ends_the_build :
  (forall (p o : string) (fs : option (list string)) (w : World)
          pre cmd rc post,
      let out := exec os (generate_proto exe p o fs) w in
      trace out = pre ++ EvCheckCall cmd rc :: post ->
      rc <> 0%Z ->
      post = [] /\ res out = Raised (CalledProcessError rc cmd))
  /\ (forall (w : World) (e : exn),
        let first := exec os (generate_proto exe ir_proto_dir generated_dir None) w in
        res first = Raised e ->
        exec os (run exe) w = Outcome (trace first) (final first) (Raised e)).
Proof.
  split.
  - intros p o fs w pre cmd rc post out Ht Hrc.
    eapply failed_call_is_last; eassumption.
  - intros w e first He. unfold run. now apply exec_bind_raised.
Qed.

(** C8.  Given a file list, [generate_proto] probes the entries
    themselves, in order, one probe per entry it reaches, and reaches
    all of them when it returns.  The file given to the compiler for an
    entry is the entry when the probe found it and [proto_path] joined
    with the entry when it did not; the joined path is not probed. *)
Theorem generate_proto_resolves_listed_files :
  forall (p o : string) (l : list string) (w : World),
    let out := exec os (generate_proto exe p o (Some l)) w in
    (exists k, map fst (probes (trace out)) = firstn k l)
    /\ compiled_files (trace out)
       = map (fun pr : string * bool =>
                if snd pr then fst pr else posixpath.join p (fst pr))
             (probes (trace out))
    /\ length (commands (trace out)) = length (probes (trace out))
    /\ (res out = Done tt -> map fst (probes (trace out)) = l).
Proof.
  intros p o l w out. subst out.
  destruct (generate_trace_shape (exec_generate_proto os exe p o (Some l) w))
    as (Hc & Hk & Hd).
  cbn [candidates] in Hk, Hd. split; [exact Hk|].
  unfold compiled_files. rewrite Hc, map_map, length_map.
  split; [|split; [reflexivity | exact Hd]].
  apply map_ext. intros pr. now rewrite proto_file_of_cmd.
Qed.

Lemma loop_keeps_dirs p o fs w tr w' r :
  loop_run os exe p o fs w tr w' r ->
  (forall errno d, r <> Raised (OSError errno d))
  /\ (keeps_directories os ->
      forall d, path_isdir os w d = true -> path_isdir os w' d = true).
Proof.
  induction 1 as [w|f fs w w1 rc found cmd Hs Hrc
                  |f fs w w1 tr w' r found cmd Hs Hl IH].
  - split; [discriminate | auto].
  - split; [discriminate|]. intros K d Hd.
    pose proof (spawn_keeps_dir K w cmd d Hd) as H. now rewrite Hs in H.
  - destruct IH as [Hr Hk]. split; [exact Hr|]. intros K d Hd.
    apply (Hk K). pose proof (spawn_keeps_dir K w cmd d Hd) as H.
    now rewrite Hs in H.
Qed.

(** C9.  [generate_proto] asks for its output directory exactly once,
    with [exist_ok=True], before it spawns any compiler, and spawns
    none if the creation fails.  An output directory that already
    exists is no error.  On a machine that keeps its directories, a
    call that did not raise [OSError] leaves the output directory in
    place, so a second call for the same [output_dir] does not raise
    [OSError] either. *)
Theorem generate_proto_makes_output_dir_first :
  forall (p o : string) (fs : option (list string)) (w : World),
    let out := exec os (generate_proto exe p o fs) w in
    (exists pre err rest,
        trace out = pre ++ EvMakedirs o true err :: rest
        /\ commands pre = []
        /\ made_dirs pre = [] /\ made_dirs rest = []
        /\ (err <> None -> rest = []))
    /\ (path_isdir os w o = true ->
        In (EvMakedirs o true None) (trace out)
        /\ forall errno d, res out <> Raised (OSError errno d))
    /\ (keeps_directories os ->
        (forall errno d, res out <> Raised (OSError errno d)) ->
        path_isdir os (final out) o = true
        /\ forall p2 fs2 errno d,
             res (exec os (generate_proto exe p2 o fs2) (final out))
             <> Raised (OSError errno d)).
Proof.
  assert (Hexists : forall p o fs w,
    path_isdir os w o = true ->
    In (EvMakedirs o true None) (trace (exec os (generate_proto exe p o fs) w))
    /\ forall errno d,
         res (exec os (generate_proto exe p o fs) w) <> Raised (OSError errno d)).
  { intros p o fs w Hd.
    destruct (exec_generate_proto os exe p o fs w) as [errno filename Hm|w1 tr w' r Hm Hl];
      cbn [trace res].
    - destruct (makedirs_exist_ok w o Hd) as [w1 Hw]. congruence.
    - split; [apply in_or_app; right; now left|].
      apply (loop_keeps_dirs Hl). }
  intros p o fs w out. subst out. split; [|split].
  - destruct (exec_generate_proto os exe p o fs w) as [errno filename Hm|w1 tr w' r Hm Hl];
      cbn [trace].
    + exists (prelude os w p fs), (Some errno), [].
      now rewrite prelude_commands, prelude_made_dirs.
    + exists (prelude os w p fs), None, tr.
      rewrite prelude_commands, prelude_made_dirs.
      destruct (loop_trace_shape Hl) as (_ & Hn & _).
      now repeat split.
  - apply Hexists.
  - intros K Hno.
    assert (Hfinal : path_isdir os
              (final (exec os (generate_proto exe p o fs) w)) o = true).
    { destruct (exec_generate_proto os exe p o fs w) as [errno filename Hm|w1 tr w' r Hm Hl];
        cbn [final res] in *.
      - now destruct (Hno errno filename).
      - apply (proj2 (loop_keeps_dirs Hl) K).
        destruct (makedirs_inl _ _ _ Hm) as [->|Hmk].
        + unfold makedirs in Hm.
          destruct (mkdir_chain os w o) as [w2|errno] eqn:Hc.
          * injection Hm as ->. apply (mkdir_makes_dir K _ _ Hc).
          * destruct (path_isdir os w o); [reflexivity|].
            rewrite orb_true_r in Hm. discriminate.
        + apply (mkdir_makes_dir K _ _ Hmk). }
    split; [exact Hfinal|].
    intros p2 fs2. apply (Hexists p2 o fs2 _ Hfinal).
Qed.

End Effects.

(** ** The protocol dispatcher: retries *)

Section Retries.
Import Dispatcher.
Variable R : Type.

(** As long as the transport keeps failing transiently, [send] uses up
    its retries and gives up with [TransportError]. *)
Lemma send_exhausted (transport : nat -> attempt R) (retries : nat) :
  forall n,
    (forall m, (n <= m <= n + retries)%nat -> transport m = TransientFailure) ->
    send transport n retries = (inr TransportError, S (n + retries)).
Proof.
  induction retries as [|k IH]; intros n H; cbn [send].
  - rewrite (H n) by lia. now rewrite Nat.add_0_r.
  - rewrite (H n) by lia. rewrite IH.
    + f_equal. lia.
    + intros m Hm. apply H. lia.
Qed.

Lemma send_bounded (transport : nat -> attempt R) (retries : nat) :
  forall n, (snd (send transport n retries) <= S (n + retries))%nat.
Proof.
  induction retries as [|k IH]; intros n; cbn [send].
  - destruct (transport n); cbn; lia.
  - destruct (transport n); cbn; try lia.
    specialize (IH (S n)). lia.
Qed.

(** C10.  With [invoke] as the specification describes it: an
    idempotent operation whose first send fails transiently and whose
    second send is delivered returns the response, provided the retry
    bound allows one retry; an idempotent operation whose sends all fail
    transiently gives up with [TransportError] after the bound is used
    up; a non-idempotent operation whose send fails transiently
    surfaces [TransportError] at once; and no invocation sends more
    than the bound allows. *)
Theorem invoke_retries_idempotent_only :
  forall (retry_bound : nat) (transport : nat -> attempt R),
    (forall r,
        (1 <= retry_bound)%nat ->
        transport 0%nat = TransientFailure ->
        transport 1%nat = Delivered r ->
        invoke retry_bound true transport = (inl r, 2%nat))
    /\ ((forall n, (n <= retry_bound)%nat -> transport n = TransientFailure) ->
        invoke retry_bound true transport
        = (inr TransportError, S retry_bound))
    /\ (transport 0%nat = TransientFailure ->
        invoke retry_bound false transport = (inr TransportError, 1%nat))
    /\ (snd (invoke retry_bound true transport) <= S retry_bound)%nat
    /\ (snd (invoke retry_bound false transport) <= 1)%nat.
Proof.
  intros retry_bound transport. unfold invoke. repeat split.
  - intros r Hb H0 H1. destruct retry_bound as [|k]; [lia|].
    cbn [send]. rewrite H0. destruct k; cbn [send]; now rewrite H1.
  - intros H. apply (@send_exhausted transport retry_bound 0%nat). intros m Hm.
    apply H. lia.
  - intros H0. cbn [send]. now rewrite H0.
  - apply (@send_bounded transport retry_bound 0%nat).
  - apply (@send_bounded transport 0%nat 0%nat).
Qed.

End Retries.

(** ** The command on the concrete machine *)

Section OnTheToyMachine.
Import BuildProto.

Lemma toy_keeps_directories : keeps_directories Toy.os.
Proof.
  constructor; cbn.
  - intros w w' d. unfold Toy.mkdir.
    destruct (Toy.is_present w d); [discriminate|].
    intros H; injection H as <-. unfold Toy.is_dir, Toy.mem. cbn.
    now rewrite String.eqb_refl.
  - intros w c d H. unfold Toy.compile. now destruct (_ && _).
Qed.

(** C1, the claim as written fails: on the checkout, no command of the
    first call of [run] carries a gRPC stub output option. *)
Lemma no_grpc_option_on_checkout :
  ~ Forall (fun cmd => requests_python_and_grpc cmd = true)
      (commands (trace (exec Toy.os
         (generate_proto Toy.python ir_proto_dir generated_dir None) Toy.checkout))).
Proof. vm_compute. intros H. inversion H. discriminate. Qed.

Lemma generate_proto_requests_python_and_mypy_stubs_witness :
  Forall
    (fun cmd =>
       exists f,
         cmd = [ Toy.python; "-m"; "grpc_tools.protoc"; "-I"; error_proto_dir;
                 ("--python_out=" ++ generated_dir)%string;
                 ("--mypy_out=" ++ generated_dir)%string; f ]
         /\ existsb is_python_out cmd = true
         /\ existsb is_mypy_out cmd = true
         /\ forall arg, In arg cmd -> is_grpc_out arg = true ->
                        arg = Toy.python \/ arg = error_proto_dir \/ arg = f)
    (commands (trace (exec Toy.os
       (generate_proto Toy.python error_proto_dir generated_dir
          (Some ["interactive.proto"])) Toy.checkout))).
Proof.
  exact (generate_proto_requests_python_and_mypy_stubs Toy.os Toy.python
           error_proto_dir generated_dir (Some ["interactive.proto"]) Toy.checkout).
Defined.

(** C2, the claim as written fails: on the checkout, whose first proto
    directory holds two proto files, [run] spawns three compilers. *)
Lemma run_spawns_three_compilers_on_checkout :
  length (commands (trace (exec Toy.os (run Toy.python) Toy.checkout))) = 3%nat
  /\ length (commands (trace (exec Toy.os (run Toy.python) Toy.checkout))) <> 2%nat.
Proof. split; vm_compute; [reflexivity | discriminate]. Qed.

Lemma run_spawns_one_compiler_per_match_and_one_more_witness :
  let out := exec Toy.os (run Toy.python) Toy.checkout in
  let stopped := exec Toy.os (run Toy.python) Toy.checkout_broken in
  res out = Done tt
  /\ length (glob.glob Toy.os Toy.checkout (posixpath.join ir_proto_dir "*.proto")) = 2%nat
  /\ length (commands (trace out)) = (2 + 1)%nat
  /\ length (made_dirs (trace out)) = 2%nat
  /\ length (made_dirs (trace stopped)) = 1%nat.
Proof.
  intros out stopped.
  assert (Hd : res out = Done tt) by (vm_compute; reflexivity).
  assert (Hf : res (exec Toy.os (generate_proto Toy.python ir_proto_dir generated_dir None)
                      Toy.checkout) = Done tt) by (vm_compute; reflexivity).
  destruct (run_spawns_one_compiler_per_match_and_one_more Toy.os Toy.python Toy.checkout)
    as (_ & Hn & Hm & _).
  destruct (run_spawns_one_compiler_per_match_and_one_more Toy.os Toy.python
              Toy.checkout_broken) as (_ & _ & _ & Hr).
  split; [exact Hd|]. split; [vm_compute; reflexivity|].
  split; [exact (Hn Hd)|]. split; [exact (Hm Hf)|].
  refine (proj1 (Hr (CalledProcessError 1
            (protoc_cmd Toy.python ir_proto_dir generated_dir
               "../../../../interactive_engine/executor/ir/proto/algebra.proto")) _)).
  vm_compute. reflexivity.
Defined.

Lemma run_compiles_into_generated_dir_witness :
  Forall (fun d => fst d = "./gs_interactive/client/generated/")
         (made_dirs (trace (exec Toy.os (run Toy.python) Toy.checkout)))
  /\ Forall
       (fun cmd =>
          nth 5 cmd "" = "--python_out=./gs_interactive/client/generated/"
          /\ nth 6 cmd "" = "--mypy_out=./gs_interactive/client/generated/"
          /\ forall arg,
               In arg (tl cmd) -> pystr.startswith arg "--" = true ->
               arg = "--python_out=./gs_interactive/client/generated/"
               \/ arg = "--mypy_out=./gs_interactive/client/generated/")
       (commands (trace (exec Toy.os (run Toy.python) Toy.checkout))).
Proof.
  exact (proj2 (run_compiles_into_generated_dir Toy.os Toy.python Toy.checkout)).
Defined.

(** C4, the claim as written fails: the proto directory lists
    [ghost.proto], which is not there when probed, so the compiler is
    given [protos/protos/ghost.proto] and not the match
    [protos/ghost.proto]; the call returns. *)
Lemma dangling_match_is_compiled_under_another_path :
  ~ compiles_exactly_the_matches Toy.os Toy.python "protos" "out"
      checkout_with_nested_ghost.
Proof. unfold compiles_exactly_the_matches. vm_compute. discriminate. Qed.

Lemma generate_proto_compiles_the_globbed_files_witness :
  let out := exec Toy.os (generate_proto Toy.python ir_proto_dir generated_dir None)
               Toy.checkout in
  glob.has_magic ir_proto_dir = false
  /\ res out = Done tt
  /\ nth_error (probes (trace out)) 1
     = Some ("../../../../interactive_engine/executor/ir/proto/common.proto", true)
  /\ nth_error (compiled_files (trace out)) 1
     = Some "../../../../interactive_engine/executor/ir/proto/common.proto"
  /\ map fst (probes (trace out))
     = proto_files_in Toy.os Toy.checkout
         "../../../../interactive_engine/executor/ir/proto"
  /\ compiled_files (trace out)
     = proto_files_in Toy.os Toy.checkout
         "../../../../interactive_engine/executor/ir/proto".
Proof.
  intros out.
  assert (Hm : glob.has_magic ir_proto_dir = false) by reflexivity.
  assert (Hd : res out = Done tt) by (vm_compute; reflexivity).
  assert (Hn : nth_error (probes (trace out)) 1
               = Some ("../../../../interactive_engine/executor/ir/proto/common.proto", true))
    by (vm_compute; reflexivity).
  assert (Hf : Forall (fun pr => snd pr = true) (probes (trace out)))
    by (vm_compute; repeat constructor).
  destruct (generate_proto_compiles_the_globbed_files Toy.os Toy.python
              ir_proto_dir generated_dir Toy.checkout Hm) as (_ & _ & Hi & H).
  destruct (H Hd) as (Hp & _ & Hc).
  split; [exact Hm|]. split; [exact Hd|]. split; [exact Hn|].
  split; [exact (Hi 1%nat _ Hn)|]. split; [exact Hp | exact (Hc Hf)].
Defined.



(** C6, the claim as written fails: called with an empty file list,
    [generate_proto] spawns nothing and still leaves a machine with one
    more directory, the output directory it created. *)
Lemma generate_proto_creates_the_output_dir :
  ~ touches_only_its_input Toy.os Toy.python "protos" "out" (Some []) Toy.checkout.
Proof.
  intros [_ H]. specialize (H eq_refl). vm_compute in H. discriminate H.
Qed.

Lemma generate_proto_own_requests_witness :
  let out := exec Toy.os (generate_proto Toy.python "protos" "out" (Some []))
               Toy.checkout in
  commands (trace out) = []
  /\ (final out = Toy.checkout
      \/ mkdir_chain Toy.os Toy.checkout "out" = inl (final out)).
Proof.
  intros out. split; [reflexivity|].
  apply (generate_proto_own_requests Toy.os Toy.python "protos" "out" (Some [])
           Toy.checkout).
  reflexivity.
Defined.

Lemma failed_compiler_ends_the_build_witness :
  let first := exec Toy.os (generate_proto Toy.python ir_proto_dir generated_dir None)
                 Toy.checkout_broken in
  let cmd := protoc_cmd Toy.python ir_proto_dir generated_dir
               "../../../../interactive_engine/executor/ir/proto/algebra.proto" in
  (1 <> 0)%Z
  /\ trace first = firstn 3 (trace first) ++ [EvCheckCall cmd 1]
  /\ res first = Raised (CalledProcessError 1 cmd)
  /\ exec Toy.os (run Toy.python) Toy.checkout_broken
     = Outcome (trace first) (final first) (Raised (CalledProcessError 1 cmd)).
Proof.
  intros first cmd.
  assert (Hrc : (1 <> 0)%Z) by discriminate.
  assert (Ht : trace first = firstn 3 (trace first) ++ EvCheckCall cmd 1 :: [])
    by (vm_compute; reflexivity).
  destruct (failed_compiler_ends_the_build Toy.os Toy.python) as [H1 H2].
  destruct (H1 ir_proto_dir generated_dir None Toy.checkout_broken
              (firstn 3 (trace first)) cmd 1%Z [] Ht Hrc) as [_ Hr].
  split; [exact Hrc|]. split; [exact Ht|]. split; [exact Hr|].
  exact (H2 Toy.checkout_broken (CalledProcessError 1 cmd) Hr).
Defined.

Lemma generate_proto_resolves_listed_files_witness :
  let l := ["interactive.proto"; "../../../../proto/error/interactive.proto"] in
  let out := exec Toy.os (generate_proto Toy.python error_proto_dir generated_dir (Some l))
               Toy.checkout in
  res out = Done tt
  /\ probes (trace out)
     = [ ("interactive.proto", false);
         ("../../../../proto/error/interactive.proto", true) ]
  /\ map fst (probes (trace out)) = l
  /\ compiled_files (trace out)
     = map (fun pr : string * bool =>
              if snd pr then fst pr else posixpath.join error_proto_dir (fst pr))
           (probes (trace out)).
Proof.
  intros l out.
  assert (Hd : res out = Done tt) by (vm_compute; reflexivity).
  destruct (generate_proto_resolves_listed_files Toy.os Toy.python
              error_proto_dir generated_dir l Toy.checkout) as (_ & Hc & _ & Hl).
  split; [exact Hd|]. split; [vm_compute; reflexivity|].
  split; [exact (Hl Hd) | exact Hc].
Defined.

Lemma generate_proto_makes_output_dir_first_witness :
  let out := exec Toy.os (generate_proto Toy.python ir_proto_dir generated_dir None)
               Toy.checkout in
  path_isdir Toy.os Toy.checkout generated_dir = false
  /\ res out = Done tt
  /\ path_isdir Toy.os (final out) generated_dir = true
  /\ (forall errno d,
        res (exec Toy.os
               (generate_proto Toy.python error_proto_dir generated_dir
                  (Some ["interactive.proto"])) (final out))
        <> Raised (OSError errno d))
  /\ In (EvMakedirs generated_dir true None)
        (trace (exec Toy.os
                  (generate_proto Toy.python error_proto_dir generated_dir
                     (Some ["interactive.proto"])) (final out))).
Proof.
  intros out.
  assert (Hd : res out = Done tt) by (vm_compute; reflexivity).
  assert (Hno : forall errno d, res out <> Raised (OSError errno d))
    by (intros errno d; rewrite Hd; discriminate).
  destruct (generate_proto_makes_output_dir_first Toy.os Toy.python
              ir_proto_dir generated_dir None Toy.checkout) as (_ & _ & H).
  destruct (H toy_keeps_directories Hno) as [Hfinal Hsecond].
  split; [vm_compute; reflexivity|]. split; [exact Hd|]. split; [exact Hfinal|].
  split; [exact (Hsecond error_proto_dir (Some ["interactive.proto"]))|].
  destruct (generate_proto_makes_output_dir_first Toy.os Toy.python
              error_proto_dir generated_dir (Some ["interactive.proto"]) (final out))
    as (_ & H2 & _).
  exact (proj1 (H2 Hfinal)).
Defined.

(** A transport whose first send fails transiently and whose later
    sends are delivered, and one that never gets through. *)
Lemma invoke_retries_idempotent_only_witness :
  let flaky := fun n : nat =>
    match n with
    | O => Dispatcher.TransientFailure
    | S _ => Dispatcher.Delivered 42%nat
    end in
  let down := fun _ : nat => @Dispatcher.TransientFailure nat in
  Dispatcher.invoke 3 true flaky = (inl 42%nat, 2%nat)
  /\ Dispatcher.invoke 3 false flaky = (inr Dispatcher.TransportError, 1%nat)
  /\ Dispatcher.invoke 3 true down = (inr Dispatcher.TransportError, 4%nat).
Proof.
  intros flaky down.
  destruct (@invoke_retries_idempotent_only nat 3 flaky) as (H1 & _ & H3 & _).
  destruct (@invoke_retries_idempotent_only nat 3 down) as (_ & H2 & _).
  split; [apply H1; [lia | reflexivity | reflexivity]|].
  split; [apply H3; reflexivity|].
  apply H2. intros n _. reflexivity.
Defined.

End OnTheToyMachine.


(** ** The build command: nothing to compile *)

Section NothingToCompile.
Context {World : Type} (os : OS World).
Variable exe : string.

Import BuildProto.


End NothingToCompile.

(** ** The build command: which path reaches the compiler *)

Section Resolution.
Context {World : Type} (os : OS World).
Variable exe : string.

Import BuildProto.

Lemma length_append (a b : string) :
  String.length (a ++ b) = (String.length a + String.length b)%nat.
Proof. induction a as [|c a IH]; cbn; [reflexivity | now rewrite IH]. Qed.

(** Joining a relative path onto a non-empty directory gives another path. *)
Lemma join_relative_differs (p g : string) :
  p <> "" -> pystr.startswith g "/" = false -> posixpath.join p g <> g.
Proof.
  intros Hp Hg. unfold posixpath.join. rewrite Hg.
  assert (Hl : (0 < String.length p)%nat) by (destruct p; [congruence | cbn; lia]).
  intros E. apply (f_equal String.length) in E.
  destruct (String.eqb p "" || pystr.endswith p "/");
    rewrite ?length_append in E; cbn in E; lia.
Qed.

Lemma compiled_files_resolved p o fs w :
  compiled_files (trace (exec os (generate_proto exe p o fs) w))
  = map (resolved p) (probes (trace (exec os (generate_proto exe p o fs) w))).
Proof.
  destruct (generate_trace_shape (exec_generate_proto os exe p o fs w)) as (Hc & _).
  unfold compiled_files. rewrite Hc, map_map.
  apply map_ext. intros pr. apply proto_file_of_cmd.
Qed.

Lemma probed_is_candidate p o fs w pr :
  In pr (probes (trace (exec os (generate_proto exe p o fs) w))) ->
  In (fst pr) (candidates os w p fs).
Proof.
  destruct (generate_trace_shape (exec_generate_proto os exe p o fs w))
    as (_ & [k Hk] & _).
  intros Hin. apply (in_firstn k). rewrite <- Hk. now apply in_map.
Qed.

(** An absolute entry of the file list reaches the compiler as it is,
    whether it exists or not: joining it onto [proto_path] gives the
    entry back. *)
Theorem absolute_entries_are_compiled_as_given :
  forall (p o : string) (l : list string) (w : World),
    let out := exec os (generate_proto exe p o (Some l)) w in
    Forall (fun f => pystr.startswith f "/" = true) l ->
    compiled_files (trace out) = map fst (probes (trace out)).
Proof.
  intros p o l w out Habs. subst out.
  rewrite compiled_files_resolved. apply map_ext_in. intros [f found] Hin.
  apply probed_is_candidate in Hin. cbn [candidates fst] in Hin.
  rewrite Forall_forall in Habs. specialize (Habs f Hin).
  unfold resolved. cbn [fst snd]. destruct found; [reflexivity|].
  unfold posixpath.join. now rewrite Habs.
Qed.

(** An entry that is not found when probed, be it listed by the caller
    or matched by the glob, is compiled as [proto_path] joined with it.
    A glob match already carries the directory, so for a relative match
    under a non-empty [proto_path] the compiler is given a path other
    than the one that matched. *)
Theorem unfound_entry_is_compiled_under_proto_path :
  forall (p o : string) (fs : option (list string)) (w : World)
         (i : nat) (g : string),
    let out := exec os (generate_proto exe p o fs) w in
    nth_error (probes (trace out)) i = Some (g, false) ->
    nth_error (compiled_files (trace out)) i = Some (posixpath.join p g)
    /\ (p <> "" -> pystr.startswith g "/" = false ->
        nth_error (compiled_files (trace out)) i <> Some g).
Proof.
  intros p o fs w i g out Hn. subst out.
  rewrite compiled_files_resolved, nth_error_map, Hn. cbn.
  split; [reflexivity|]. intros Hp Hg E. injection E as E.
  now apply (join_relative_differs Hp Hg).
Qed.

End Resolution.

(** ** The build command: calls in sequence *)

Section Sequences.
Context {World : Type} (os : OS World).
Variable exe : string.

Import BuildProto.

(** The loop over [l1 ++ l2] is the loop over [l1] followed by the loop
    over [l2]. *)
Lemma exec_for_each_app {X : Type} (body : X -> prog unit) (l1 l2 : list X) :
  forall w,
    exec os (for_each (l1 ++ l2) body) w
    = then_run (exec os (for_each l1 body) w)
        (fun _ => exec os (for_each l2 body)).
Proof.
  induction l1 as [|x l1 IH]; intros w.
  - unfold then_run. cbn. now destruct (exec os (for_each l2 body) w).
  - cbn [app for_each]. rewrite !exec_bind. unfold then_run.
    destruct (res (exec os (body x) w)) as [[]|e]; cbn [trace final res].
    + rewrite IH. unfold then_run.
      destruct (res (exec os (for_each l1 body) (final (exec os (body x) w))))
        as [[]|e]; cbn [trace final res]; [|reflexivity].
      now rewrite app_assoc.
    + reflexivity.
Qed.

Lemma makedirs_makes_dir (w w1 : World) (d : string) :
  keeps_directories os ->
  makedirs os w d true = inl w1 -> path_isdir os w1 d = true.
Proof.
  intros K. unfold makedirs. destruct (mkdir_chain os w d) as [w2|errno] eqn:Hc.
  - intros H; injection H as <-. apply (mkdir_makes_dir K _ _ Hc).
  - cbn [negb orb]. destruct (path_isdir os w d) eqn:Hd; cbn [negb]; [|discriminate].
    intros H; injection H as <-. exact Hd.
Qed.

Lemma makedirs_again (w : World) (d : string) :
  mkdir_existing_fails os ->
  path_isdir os w d = true -> makedirs os w d true = inl w.
Proof.
  intros M Hd. unfold makedirs. destruct (M w d Hd) as [errno ->].
  now rewrite Hd.
Qed.

Lemma exec_generate_some (p o : string) (l : list string) (w : World) :
  exec os (generate_proto exe p o (Some l)) w
  = match makedirs os w o true with
    | inl w1 =>
        let out := exec os (for_each l (compile_one exe p o)) w1 in
        Outcome (EvMakedirs o true None :: trace out) (final out) (res out)
    | inr (errno, filename) =>
        Outcome [EvMakedirs o true (Some errno)] w (Raised (OSError errno filename))
    end.
Proof. apply exec_after_makedirs. Qed.

(** On a machine that keeps its directories and refuses to create one
    that is already there, compiling a list in one call and compiling it
    in two calls, a first part and then the rest, come to the same: the
    same probes, the same compiler command lines, the same result and
    the same machine afterwards. *)
Theorem splitting_the_file_list :
  keeps_directories os ->
  mkdir_existing_fails os ->
  forall (p o : string) (l1 l2 : list string) (w : World),
    let whole := exec os (generate_proto exe p o (Some (l1 ++ l2))) w in
    let parts := exec os (generate_proto exe p o (Some l1) ;;
                          generate_proto exe p o (Some l2))%prog w in
    commands (trace whole) = commands (trace parts)
    /\ probes (trace whole) = probes (trace parts)
    /\ res whole = res parts
    /\ final whole = final parts.
Proof.
  intros K M p o l1 l2 w whole parts. subst whole parts.
  rewrite exec_bind, !exec_generate_some.
  destruct (makedirs os w o true) as [w1|[errno filename]] eqn:Hm; [|now repeat split].
  rewrite exec_for_each_app. cbv zeta.
  pose proof (exec_loop os exe p o l1 w1) as Hl. cbv zeta in Hl.
  set (o1 := exec os (for_each l1 (compile_one exe p o)) w1) in *.
  unfold then_run. cbn [res trace final].
  destruct (res o1) as [[]|e] eqn:Hr; cbn [res trace final]; [|now repeat split].
  assert (Hd : path_isdir os (final o1) o = true).
  { apply (proj2 (loop_keeps_dirs Hl) K). eapply makedirs_makes_dir; eassumption. }
  rewrite exec_generate_some, (@makedirs_again (final o1) o M Hd). cbv zeta. cbn [res trace final].
  change (EvMakedirs o true None :: trace o1)
    with ([EvMakedirs o true None] ++ trace o1).
  change (EvMakedirs o true None
            :: trace (exec os (for_each l2 (compile_one exe p o)) (final o1)))
    with ([EvMakedirs o true None]
            ++ trace (exec os (for_each l2 (compile_one exe p o)) (final o1))).
  rewrite !commands_app, !probes_app. cbn [commands probes flat_map app].
  split; [apply flat_map_app|]. split; [apply flat_map_app|]. now split.
Qed.

Lemma firstn_app_left {X : Type} (k : nat) (g l : list X) :
  exists k', firstn k g = firstn k' (g ++ l).
Proof.
  exists (Nat.min k (length g)). rewrite firstn_app.
  replace (Nat.min k (length g) - length g)%nat with 0%nat by lia.
  cbn [firstn]. rewrite app_nil_r.
  destruct (Nat.le_ge_cases k (length g)) as [H|H].
  - now rewrite Nat.min_l.
  - rewrite Nat.min_r by assumption. now rewrite firstn_all, firstn_all2.
Qed.

Lemma in_probes (tr : list event) (f : string) (b : bool) :
  In (f, b) (probes tr) -> In (EvExists f b) tr.
Proof.
  unfold probes. intros H. apply in_flat_map in H as (ev & Hev & Hin).
  destruct ev; cbn in Hin; try contradiction.
  destruct Hin as [E|[]]. injection E as <- <-. exact Hev.
Qed.

(** [run] takes the entries one after the other: the matches of the glob
    in the IR proto directory, in listing order, and then
    [interactive.proto].  It stops at the first failure, and a run that
    returns has taken them all. *)
Theorem run_visits_the_matches_then_the_error_proto :
  forall (w : World),
    let out := exec os (run exe) w in
    let entries :=
      glob.glob os w (posixpath.join ir_proto_dir "*.proto") ++ ["interactive.proto"] in
    (exists k, map fst (probes (trace out)) = firstn k entries)
    /\ (res out = Done tt -> map fst (probes (trace out)) = entries).
Proof.
  intros w out entries. subst out entries.
  rewrite exec_run, then_run_trace, probes_app, map_app.
  set (o1 := exec os (generate_proto exe ir_proto_dir generated_dir None) w).
  destruct (generate_trace_shape (exec_generate_proto os exe ir_proto_dir generated_dir None w))
    as (_ & [k1 Hk1] & Hd1).
  fold o1 in Hk1, Hd1. cbn [candidates] in Hk1, Hd1.
  split.
  - destruct (res o1) as [[]|e] eqn:Hr.
    + destruct (generate_trace_shape
                  (exec_generate_proto os exe error_proto_dir generated_dir
                     (Some ["interactive.proto"]) (final o1))) as (_ & [k2 Hk2] & _).
      cbn [candidates] in Hk2. rewrite (Hd1 eq_refl), Hk2.
      exists (length (glob.glob os w (posixpath.join ir_proto_dir "*.proto")) + k2)%nat.
      now rewrite firstn_app_2.
    + cbn [probes flat_map map]. rewrite app_nil_r, Hk1. apply firstn_app_left.
  - intros Hd. apply then_run_res_done in Hd as ([] & Hr1 & Hr2).
    fold o1 in Hr1. rewrite Hr1, (Hd1 Hr1).
    destruct (generate_trace_shape
                (exec_generate_proto os exe error_proto_dir generated_dir
                   (Some ["interactive.proto"]) (final o1))) as (_ & _ & Hd2).
    now rewrite (Hd2 Hr2).
Qed.

(** The last compiler of a run that returns is the one for the error
    proto file, with include path [../../../../proto/error].  It is given
    [interactive.proto] of the current directory if the probe found one
    there, and [../../../../proto/error/interactive.proto] otherwise. *)
Theorem run_compiles_the_error_proto_last :
  forall (w : World),
    let out := exec os (run exe) w in
    res out = Done tt ->
    exists found,
      In (EvExists "interactive.proto" found) (trace out)
      /\ last (commands (trace out)) []
         = [ exe; "-m"; "grpc_tools.protoc"; "-I"; "../../../../proto/error";
             "--python_out=./gs_interactive/client/generated/";
             "--mypy_out=./gs_interactive/client/generated/";
             if found then "interactive.proto"
             else "../../../../proto/error/interactive.proto" ].
Proof.
  intros w out Hd. subst out. rewrite exec_run in *.
  apply then_run_res_done in Hd as ([] & Hr1 & Hr2).
  rewrite then_run_trace, Hr1, commands_app.
  set (o1 := exec os (generate_proto exe ir_proto_dir generated_dir None) w) in *.
  destruct (generate_trace_shape
              (exec_generate_proto os exe error_proto_dir generated_dir
                 (Some ["interactive.proto"]) (final o1))) as (Hc & _ & Hd2).
  specialize (Hd2 Hr2). cbn [candidates] in Hd2.
  set (tr2 := trace (exec os (generate_proto exe error_proto_dir generated_dir
                               (Some ["interactive.proto"])) (final o1))) in *.
  destruct (probes tr2) as [|[f found] [|pr rest]] eqn:Hp; try discriminate Hd2.
  injection Hd2 as ->. exists found. split.
  - apply in_or_app. right. apply in_probes. rewrite Hp. now left.
  - rewrite Hc. cbn [map]. rewrite last_last.
    unfold resolved. cbn [fst snd]. now destruct found.
Qed.

End Sequences.

(** ** More runs on the concrete machine *)

Section MoreOnTheToyMachine.
Import BuildProto.

Lemma toy_mkdir_existing_fails : mkdir_existing_fails Toy.os.
Proof.
  intros w d Hd. cbn in *. unfold Toy.mkdir, Toy.is_present. rewrite Hd.
  now exists (Toy.EEXIST, d).
Qed.


Lemma absolute_entries_are_compiled_as_given_witness :
  let out := exec Toy.os
               (generate_proto Toy.python error_proto_dir generated_dir
                  (Some ["/srv/protos/missing.proto"])) Toy.checkout in
  probes (trace out) = [("/srv/protos/missing.proto", false)]
  /\ compiled_files (trace out) = map fst (probes (trace out)).
Proof.
  intros out. split; [vm_compute; reflexivity|].
  apply (absolute_entries_are_compiled_as_given Toy.os Toy.python).
  repeat constructor.
Defined.

Lemma unfound_entry_is_compiled_under_proto_path_witness :
  let out := exec Toy.os (generate_proto Toy.python "protos" "out" None)
               checkout_with_ghost in
  nth_error (probes (trace out)) 0 = Some ("protos/ghost.proto", false)
  /\ nth_error (compiled_files (trace out)) 0
     = Some (posixpath.join "protos" "protos/ghost.proto")
  /\ posixpath.join "protos" "protos/ghost.proto" = "protos/protos/ghost.proto"
  /\ nth_error (compiled_files (trace out)) 0 <> Some "protos/ghost.proto".
Proof.
  intros out.
  assert (Hn : nth_error (probes (trace out)) 0 = Some ("protos/ghost.proto", false))
    by (vm_compute; reflexivity).
  destruct (@unfound_entry_is_compiled_under_proto_path _ Toy.os Toy.python "protos" "out"
              None checkout_with_ghost 0 "protos/ghost.proto" Hn) as [Hc Hne].
  split; [exact Hn|]. split; [exact Hc|]. split; [vm_compute; reflexivity|].
  apply Hne; [discriminate | reflexivity].
Defined.

Lemma splitting_the_file_list_witness :
  let l1 := ["interactive.proto"] in
  let l2 := ["../../../../proto/error/interactive.proto"] in
  let whole := exec Toy.os
                 (generate_proto Toy.python error_proto_dir generated_dir (Some (l1 ++ l2)))
                 Toy.checkout in
  let parts := exec Toy.os
                 (generate_proto Toy.python error_proto_dir generated_dir (Some l1) ;;
                  generate_proto Toy.python error_proto_dir generated_dir (Some l2))%prog
                 Toy.checkout in
  length (commands (trace whole)) = 2%nat
  /\ commands (trace whole) = commands (trace parts)
  /\ res whole = res parts
  /\ final whole = final parts.
Proof.
  intros l1 l2 whole parts. split; [vm_compute; reflexivity|].
  destruct (splitting_the_file_list Toy.python toy_keeps_directories
              toy_mkdir_existing_fails error_proto_dir generated_dir l1 l2 Toy.checkout)
    as (Hc & _ & Hr & Hf).
  now repeat split.
Defined.

Lemma run_visits_the_matches_then_the_error_proto_witness :
  let out := exec Toy.os (run Toy.python) Toy.checkout in
  res out = Done tt
  /\ map fst (probes (trace out))
     = glob.glob Toy.os Toy.checkout (posixpath.join ir_proto_dir "*.proto")
       ++ ["interactive.proto"].
Proof.
  intros out.
  assert (Hd : res out = Done tt) by (vm_compute; reflexivity).
  split; [exact Hd|].
  exact (proj2 (run_visits_the_matches_then_the_error_proto Toy.os Toy.python Toy.checkout) Hd).
Defined.

Lemma run_compiles_the_error_proto_last_witness :
  let out := exec Toy.os (run Toy.python) Toy.checkout in
  res out = Done tt
  /\ exists found,
       In (EvExists "interactive.proto" found) (trace out)
       /\ last (commands (trace out)) []
          = [ Toy.python; "-m"; "grpc_tools.protoc"; "-I"; "../../../../proto/error";
              "--python_out=./gs_interactive/client/generated/";
              "--mypy_out=./gs_interactive/client/generated/";
              if found then "interactive.proto"
              else "../../../../proto/error/interactive.proto" ].
Proof.
  intros out.
  assert (Hd : res out = Done tt) by (vm_compute; reflexivity).
  split; [exact Hd|].
  exact (run_compiles_the_error_proto_last Toy.os Toy.python Toy.checkout Hd).
Defined.

End MoreOnTheToyMachine.

(** ** The build command: probe and compiler go together *)

Section ProbeThenCompile.
Context {World : Type} (os : OS World).
Variable exe : string.

Import BuildProto.

Lemma loop_probe_then_compile p o fs w tr w' r :
  loop_run os exe p o fs w tr w' r ->
  forall pre cmd rc post,
    tr = pre ++ EvCheckCall cmd rc :: post ->
    exists pre' f found,
      pre = pre' ++ [EvExists f found]
      /\ In f fs
      /\ cmd = protoc_cmd exe p o (resolved p (f, found)).
Proof.
  induction 1 as [w|f fs w w1 rc0 found cmd0 Hs Hrc
                  |f fs w w1 tr w' r found cmd0 Hs Hl IH];
    intros pre cmd rc post E.
  - destruct pre; discriminate.
  - destruct pre as [|e1 [|e2 pre]]; cbn in E; try discriminate.
    + injection E as <- <- <- <-. exists [], f, found.
      split; [reflexivity|]. split; [now left | reflexivity].
    + injection E as _ _ E. destruct pre; discriminate.
  - destruct pre as [|e1 [|e2 pre]]; cbn in E; try discriminate.
    + injection E as <- <- <- <-. exists [], f, found.
      split; [reflexivity|]. split; [now left | reflexivity].
    + injection E as <- <- E.
      destruct (IH _ _ _ _ E) as (pre' & f' & found' & -> & Hin & ->).
      exists (EvExists f found :: EvCheckCall cmd0 0 :: pre'), f', found'.
      split; [reflexivity|]. split; [now right | reflexivity].
Qed.

(** Whenever [generate_proto] spawns a compiler, the request just before
    was the existence probe of the entry being compiled, and the command
    line is built from that entry and that answer: nothing comes between
    the probe of a file and its compilation. *)
Theorem probe_comes_right_before_its_compiler :
  forall (p o : string) (fs : option (list string)) (w : World)
         pre cmd rc post,
    let out := exec os (generate_proto exe p o fs) w in
    trace out = pre ++ EvCheckCall cmd rc :: post ->
    exists pre' f found,
      pre = pre' ++ [EvExists f found]
      /\ In f (candidates os w p fs)
      /\ cmd = [ exe; "-m"; "grpc_tools.protoc"; "-I"; p;
                 ("--python_out=" ++ o)%string; ("--mypy_out=" ++ o)%string;
                 if found then f else posixpath.join p f ].
Proof.
  intros p o fs w pre cmd rc post out E. subst out.
  destruct (exec_generate_proto os exe p o fs w) as [errno filename Hm|w1 tr w' r Hm Hl];
    cbn [trace] in E.
  - destruct fs; cbn in E.
    + destruct pre as [|e1 [|e2 pre]]; discriminate.
    + destruct pre as [|e1 [|e2 [|e3 pre]]]; discriminate.
  - assert (Hpre : exists pre2,
               pre = prelude os w p fs ++ EvMakedirs o true None :: pre2
               /\ tr = pre2 ++ EvCheckCall cmd rc :: post).
    { destruct fs; cbn in E |- *.
      - destruct pre as [|e1 pre]; [discriminate|].
        injection E as <- E. now exists pre.
      - destruct pre as [|e1 [|e2 pre]]; try discriminate.
        injection E as <- <- E. now exists pre. }
    destruct Hpre as (pre2 & -> & Htr).
    edestruct (loop_probe_then_compile Hl)
      as (pre' & f & found & Hp & Hin & Hcmd); [exact Htr|]. subst pre2 cmd.
    exists (prelude os w p fs ++ EvMakedirs o true None :: pre'), f, found.
    split; [now rewrite <- app_assoc|]. split; [exact Hin|].
    unfold protoc_cmd, resolved. cbn [fst snd]. now destruct found.
Qed.

End ProbeThenCompile.

Section ProbeThenCompileOnTheToyMachine.
Import BuildProto.

Lemma probe_comes_right_before_its_compiler_witness :
  let out := exec Toy.os
               (generate_proto Toy.python error_proto_dir generated_dir
                  (Some ["interactive.proto"])) Toy.checkout in
  let cmd := protoc_cmd Toy.python error_proto_dir generated_dir
               "../../../../proto/error/interactive.proto" in
  trace out
  = [EvMakedirs generated_dir true None; EvExists "interactive.proto" false]
      ++ EvCheckCall cmd 0 :: []
  /\ exists pre' f found,
       [EvMakedirs generated_dir true None; EvExists "interactive.proto" false]
       = pre' ++ [EvExists f found]
       /\ In f ["interactive.proto"]
       /\ cmd = [ Toy.python; "-m"; "grpc_tools.protoc"; "-I"; error_proto_dir;
                  ("--python_out=" ++ generated_dir)%string;
                  ("--mypy_out=" ++ generated_dir)%string;
                  if found then f else posixpath.join error_proto_dir f ].
Proof.
  intros out cmd.
  assert (Ht : trace out
               = [EvMakedirs generated_dir true None; EvExists "interactive.proto" false]
                   ++ EvCheckCall cmd 0 :: []) by (vm_compute; reflexivity).
  split; [exact Ht|].
  exact (@probe_comes_right_before_its_compiler _ Toy.os Toy.python error_proto_dir
           generated_dir (Some ["interactive.proto"]) Toy.checkout _ _ _ _ Ht).
Defined.

End ProbeThenCompileOnTheToyMachine.
